(** * windpowerlib.power_curves: smoothing and wake losses of a power curve

    A shallow embedding of [windpowerlib/power_curves.py] and of the parts of
    Python, numpy and pandas that its two functions call (pandas before
    2.0, which still has [Series.append]).

    Numbers.  A finite float is the rational it stands for ([Q]).  Sums,
    products and quotients are exact, except where a statement is about
    the rounding itself: the loop of lines 82-87 is also given with the
    float sum ([Float64.add], [extend_to_40_with]).  The non-finite values
    that numpy produces where Python would raise (division by zero) are
    kept apart in [npfloat].  A missing entry of a pandas column (NaN) is
    [None]. *)

From Stdlib Require Import String QArith Qround Qabs Qpower ZArith List Sorted
  Bool Lia Lqa.
Import ListNotations.

Local Open Scope Q_scope.

(** ** Python: exceptions, outcomes, strings, locals *)

Module Py.

Inductive exn : Type :=
| ValueError (msg : string)
| TypeError (msg : string)
| UnboundLocalError (name : string)
| AttributeError (type_name attr : string)
| IndexError
| ZeroDivisionError
| NotImplementedError (msg : string).

(** The outcome of a call that finishes: a value or a raised exception. *)
Inductive result (A : Type) : Type :=
| Ok (a : A)
| Raise (e : exn).

Arguments Ok {A} a.
Arguments Raise {A} e.

Definition bind {A B : Type} (r : result A) (k : A -> result B) : result B :=
  match r with
  | Ok a => k a
  | Raise e => Raise e
  end.

(** A list comprehension whose body may raise: stops at the first raise. *)
Fixpoint for_each {A B : Type} (f : A -> result B) (l : list A)
  : result (list B) :=
  match l with
  | [] => Ok []
  | a :: l' =>
      bind (f a) (fun b => bind (for_each f l') (fun bs => Ok (b :: bs)))
  end.

(** A [str] object.  [interned] tells whether it is the very object that
    CPython keeps for the identifier-like literals of a compiled module:
    [==] compares [chars], [is] compares objects. *)
Record str : Type := mk_str { chars : string; interned : bool }.

Definition literal (s : string) : str := mk_str s true.

Definition str_eq (s : str) (lit : string) : bool := String.eqb (chars s) lit.

Definition str_is (s : str) (lit : string) : bool :=
  interned s && String.eqb (chars s) lit.

(** Reading a local variable that no executed branch has assigned. *)
Definition read_local {A : Type} (name : string) (slot : option A)
  : result A :=
  match slot with
  | Some a => Ok a
  | None => Raise (UnboundLocalError name)
  end.

(** [**kwargs]: keyword names with their values, in call order. *)
Definition kwargs : Type := list (string * Q).

Fixpoint get (key : string) (kw : kwargs) : option Q :=
  match kw with
  | [] => None
  | (k, v) :: kw' => if String.eqb k key then Some v else get key kw'
  end.

(** [seq[-k]] for k >= 1. *)
Definition neg_index {A : Type} (k : nat) (l : list A) : result A :=
  if (length l <? k)%nat then Raise IndexError
  else match nth_error l (length l - k) with
       | Some a => Ok a
       | None => Raise IndexError
       end.

End Py.

Import Py.

Notation "x <- c ;; k" := (Py.bind c (fun x => k))
  (at level 61, c at next level, right associativity).

Definition Qlt_bool (x y : Q) : bool := negb (Qle_bool y x).

(** ** numpy *)

Module Np.

(** A float64 as numpy computes with it: finite, or one of the values that
    a division by zero leaves behind.  The operations on finite values
    are exact: rounding and overflow to infinity are not modelled here
    (the float sum is in [Float64]).  Zero carries no sign: division by
    zero takes the sign of the numerator. *)
Inductive npfloat : Type :=
| Fin (q : Q)
| PInf
| NInf
| NaN.

Definition isnan (x : npfloat) : bool :=
  match x with NaN => true | _ => false end.

Definition inf (negative : bool) : npfloat :=
  if negative then NInf else PInf.

Definition fadd (x y : npfloat) : npfloat :=
  match x, y with
  | NaN, _ | _, NaN => NaN
  | Fin a, Fin b => Fin (a + b)
  | PInf, NInf | NInf, PInf => NaN
  | PInf, _ | _, PInf => PInf
  | NInf, _ | _, NInf => NInf
  end.

Definition fmul (x y : npfloat) : npfloat :=
  match x, y with
  | NaN, _ | _, NaN => NaN
  | Fin a, Fin b => Fin (a * b)
  | Fin a, PInf | PInf, Fin a =>
      if Qeq_bool a 0 then NaN else inf (Qlt_bool a 0)
  | Fin a, NInf | NInf, Fin a =>
      if Qeq_bool a 0 then NaN else inf (negb (Qlt_bool a 0))
  | PInf, PInf | NInf, NInf => PInf
  | PInf, NInf | NInf, PInf => NInf
  end.

Definition fdiv (x y : npfloat) : npfloat :=
  match x, y with
  | NaN, _ | _, NaN => NaN
  | Fin a, Fin b =>
      if Qeq_bool b 0
      then (if Qeq_bool a 0 then NaN else inf (Qlt_bool a 0))
      else Fin (a / b)
  | Fin _, _ => Fin 0
  | PInf, Fin b => inf (Qlt_bool b 0)
  | NInf, Fin b => inf (negb (Qlt_bool b 0))
  | _, _ => NaN
  end.

(** [np.exp], over a given exponential on the finite values. *)
Definition fexp (exp : Q -> Q) (x : npfloat) : npfloat :=
  match x with
  | Fin q => Fin (exp q)
  | PInf => PInf
  | NInf => Fin 0
  | NaN => NaN
  end.

(** The builtin [sum] over float64 terms: starts at 0, adds left to
    right. *)
Definition sum (terms : list npfloat) : npfloat :=
  fold_left fadd terms (Fin 0).

(** [np.arange(start, stop, step)]: [ceil((stop - start) / step)] values
    [start + i * step], none when that count is not positive.  The count
    is a Python division of the arguments, so a zero step raises. *)
Definition arange (start stop step : Q) : result (list Q) :=
  if Qeq_bool step 0 then Raise ZeroDivisionError
  else
    let n := Z.to_nat (Qceiling ((stop - start) / step)) in
    Ok (map (fun i => start + inject_Z (Z.of_nat i) * step) (seq 0 n)).

(** The scan of [np.interp] over the sample points, which are taken to be
    increasing in x as numpy's search assumes: [(x0, y0)] is the last
    sample at or below [x]. *)
Fixpoint interp_from (x x0 y0 : Q) (rest : list (Q * Q)) (right : Q) : Q :=
  match rest with
  | [] => if Qlt_bool x0 x then right else y0
  | (x1, y1) :: rest' =>
      if Qlt_bool x x1
      then (if Qeq_bool x0 x then y0
            else (y1 - y0) / (x1 - x0) * (x - x0) + y0)
      else interp_from x x1 y1 rest' right
  end.

(** [np.interp] at [x] on the sample points [(x0, y0) :: rest]; [left] and
    [right] default to the first and the last sample value. *)
Definition interp_nonempty (x x0 y0 : Q) (rest : list (Q * Q))
           (left right : option Q) : Q :=
  if Qlt_bool x x0
  then match left with Some l => l | None => y0 end
  else interp_from x x0 y0 rest
         (match right with
          | Some r => r
          | None => snd (last rest (x0, y0))
          end).

Definition interp_points (x : Q) (pts : list (Q * Q))
           (left right : option Q) : result Q :=
  match pts with
  | [] => Raise (ValueError "array of sample points is empty")
  | (x0, y0) :: rest => Ok (interp_nonempty x x0 y0 rest left right)
  end.

(** [np.interp(x, xp, fp, left, right)] for one x. *)
Definition interp (x : Q) (xp fp : list Q) (left right : option Q)
  : result Q :=
  if negb (length xp =? length fp)%nat
  then Raise (ValueError "fp and xp are not of the same length.")
  else interp_points x (combine xp fp) left right.

End Np.

Import Np.

(** ** Python floats *)

Module Float64.

(** A Python float is an IEEE 754 binary64, here the rational it stands
    for.  The exponent of a positive rational: the [e] with
    [2 ^ e <= q < 2 ^ (e + 1)]. *)
Definition floor_log2 (q : Q) : Z :=
  let e := (Z.log2 (Qnum q) - Z.log2 (Zpos (Qden q)))%Z in
  if Qle_bool (2 ^ e) q then e else (e - 1)%Z.

(** The nearest integer, a tie going to the even one. *)
Definition round_half_even (q : Q) : Z :=
  let f := Qfloor q in
  let r := q - inject_Z f in
  if Qlt_bool r (1 # 2) then f
  else if Qlt_bool (1 # 2) r then (f + 1)%Z
  else if Z.even f then f else (f + 1)%Z.

(** The float nearest to a rational: 53 significant bits, ties to even, as
    a fraction in lowest terms.  The range of the exponent is not
    modelled: no overflow to infinity (beyond about 1.8e308), and below
    2 ^ -1022 the result keeps 53 bits, which is still the float for a sum
    of two floats. *)
Definition round (q : Q) : Q :=
  if Qeq_bool q 0 then 0
  else
    let e := (floor_log2 (Qabs q) - 52)%Z in
    Qred (inject_Z (round_half_even (q / 2 ^ e)) * 2 ^ e).

(** [x + y] on floats: the exact sum, rounded. *)
Definition add (x y : Q) : Q := round (x + y).

(** Half the distance from 1 to the next float. *)
Definition unit_roundoff : Q := 2 ^ (-53).

End Float64.

(** ** smooth_power_curve *)

(** What a caller may pass as [power_curve_wind_speeds] and
    [power_curve_values]: the docstring admits a pandas Series and a numpy
    array. *)
Inductive array_like : Type :=
| Series (data : list Q)
| Ndarray (data : list Q).

Definition data (a : array_like) : list Q :=
  match a with
  | Series d => d
  | Ndarray d => d
  end.

Section Smooth.

(** [tools.gaussian_distribution(function_variable, standard_deviation,
    mean)]: defined in another module of the package. *)
Variable gaussian_distribution : Q -> Q -> Q -> npfloat.

(** Lines 66-76: the branch that assigns [normalized_standard_deviation],
    or leaves it unassigned. *)
Definition select_normalized_standard_deviation
           (standard_deviation_method : str) (kw : kwargs)
  : result (option Q) :=
  if Py.str_eq standard_deviation_method "turbulence_intensity" then
    match Py.get "turbulence_intensity" kw with
    | Some ti => Ok (Some ti)
    | None =>
        Raise (ValueError
                 "Turbulence intensity must be defined for using 'turbulence_intensity' as `standard_deviation_method`")
    end
  else if Py.str_eq standard_deviation_method "Norgaard" then Ok None
  else if Py.str_eq standard_deviation_method "Staffell" then Ok (Some (2 # 10))
  else Ok None.

(** Line 80: [step], the spacing of the sixth and the fifth sample from the
    end. *)
Definition tail_step (power_curve_wind_speeds : list Q) : result Q :=
  a <- Py.neg_index 5 power_curve_wind_speeds ;;
  b <- Py.neg_index 6 power_curve_wind_speeds ;;
  Ok (a - b).

(** Lines 82-87: the [while] loop.  [None] when [fuel] iterations were not
    enough to leave it. *)
Fixpoint extend_to_40 (fuel : nat) (step : Q)
         (power_curve_wind_speeds power_curve_values : list Q)
  : option (result (list Q * list Q)) :=
  match Py.neg_index 1 power_curve_wind_speeds with
  | Raise e => Some (Raise e)
  | Ok final =>
      if Qlt_bool final 40 then
        match fuel with
        | O => None
        | S fuel' =>
            match Py.neg_index 1 power_curve_values with
            | Raise e => Some (Raise e)
            | Ok _ =>
                extend_to_40 fuel' step
                  (power_curve_wind_speeds ++ [final + step])
                  (power_curve_values ++ [0])
            end
        end
      else Some (Ok (power_curve_wind_speeds, power_curve_values))
  end.

(** The same loop with the sum of line 85 computed by [add].  Python adds
    floats, [Float64.add]; [extend_to_40] is the loop with the exact
    sum. *)
Fixpoint extend_to_40_with (add : Q -> Q -> Q) (fuel : nat) (step : Q)
         (power_curve_wind_speeds power_curve_values : list Q)
  : option (result (list Q * list Q)) :=
  match Py.neg_index 1 power_curve_wind_speeds with
  | Raise e => Some (Raise e)
  | Ok final =>
      if Qlt_bool final 40 then
        match fuel with
        | O => None
        | S fuel' =>
            match Py.neg_index 1 power_curve_values with
            | Raise e => Some (Raise e)
            | Ok _ =>
                extend_to_40_with add fuel' step
                  (power_curve_wind_speeds ++ [add final step])
                  (power_curve_values ++ [0])
            end
        end
      else Some (Ok (power_curve_wind_speeds, power_curve_values))
  end.

(** Lines 94-97: the standard deviation of the filter at one wind speed. *)
Definition standard_deviation_at (standard_deviation_method : str)
           (normalized_standard_deviation power_curve_wind_speed : Q) : Q :=
  if Py.str_is standard_deviation_method "Staffell"
  then power_curve_wind_speed * normalized_standard_deviation + (6 # 10)
  else power_curve_wind_speed * normalized_standard_deviation.

(** Lines 89-109: the body of the [for] loop, for one wind speed. *)
Definition smoothed_value_at
           (power_curve_wind_speeds power_curve_values : list Q)
           (block_width : Q) (standard_deviation_method : str)
           (mean_gauss : Q) (normalized_standard_deviation : option Q)
           (power_curve_wind_speed : Q) : result npfloat :=
  block <- Np.arange (-(15)) (15 + block_width) block_width ;;
  let wind_speeds_block := map (fun b => b + power_curve_wind_speed) block in
  nsd <- Py.read_local "normalized_standard_deviation"
           normalized_standard_deviation ;;
  let standard_deviation :=
    standard_deviation_at standard_deviation_method nsd
      power_curve_wind_speed in
  terms <- Py.for_each
             (fun wind_speed =>
                p <- Np.interp wind_speed power_curve_wind_speeds
                       power_curve_values (Some 0) (Some 0) ;;
                Ok (fmul (Fin (block_width * p))
                      (gaussian_distribution
                         (power_curve_wind_speed - wind_speed)
                         standard_deviation mean_gauss)))
             wind_speeds_block ;;
  let smoothed_value := Np.sum terms in
  Ok (if isnan smoothed_value then Fin 0 else smoothed_value).

(** The whole function on two Series.  The returned frame has the columns
    ['wind_speed'] and ['power'], here a list of rows. *)
Definition smooth_power_curve (fuel : nat)
           (power_curve_wind_speeds power_curve_values : list Q)
           (block_width : Q) (standard_deviation_method : str)
           (mean_gauss : Q) (kw : kwargs)
  : option (result (list (Q * npfloat))) :=
  match select_normalized_standard_deviation standard_deviation_method kw with
  | Raise e => Some (Raise e)
  | Ok normalized_standard_deviation =>
      match tail_step power_curve_wind_speeds with
      | Raise e => Some (Raise e)
      | Ok step =>
          match extend_to_40 fuel step power_curve_wind_speeds
                  power_curve_values with
          | None => None
          | Some (Raise e) => Some (Raise e)
          | Some (Ok (wind_speeds, values)) =>
              Some (smoothed_power_curve_values <-
                      Py.for_each
                        (smoothed_value_at wind_speeds values block_width
                           standard_deviation_method mean_gauss
                           normalized_standard_deviation)
                        wind_speeds ;;
                    Ok (combine wind_speeds smoothed_power_curve_values))
          end
      end
  end.

(** The whole function on the sequences that the docstring admits.  A
    numpy array has neither [iloc] (line 80) nor [append] (line 86); where
    the loop of lines 82-87 is not entered, an array of power values is as
    good as a Series for [np.interp]. *)
Definition smooth_power_curve_array_like (fuel : nat)
           (power_curve_wind_speeds power_curve_values : array_like)
           (block_width : Q) (standard_deviation_method : str)
           (mean_gauss : Q) (kw : kwargs)
  : option (result (list (Q * npfloat))) :=
  match power_curve_wind_speeds, power_curve_values with
  | Series wind_speeds, Series values =>
      smooth_power_curve fuel wind_speeds values block_width
        standard_deviation_method mean_gauss kw
  | Ndarray _, _ =>
      match select_normalized_standard_deviation standard_deviation_method
              kw with
      | Raise e => Some (Raise e)
      | Ok _ => Some (Raise (AttributeError "numpy.ndarray" "iloc"))
      end
  | Series wind_speeds, Ndarray values =>
      match select_normalized_standard_deviation standard_deviation_method
              kw with
      | Raise e => Some (Raise e)
      | Ok _ =>
          match tail_step wind_speeds with
          | Raise e => Some (Raise e)
          | Ok _ =>
              match Py.neg_index 1 wind_speeds with
              | Raise e => Some (Raise e)
              | Ok final =>
                  if Qlt_bool final 40
                  then Some (Raise (AttributeError "numpy.ndarray" "append"))
                  else
                    smooth_power_curve fuel wind_speeds values block_width
                      standard_deviation_method mean_gauss kw
              end
          end
      end
  end.

End Smooth.


(** ** tools *)

Module Tools.

(** The Taylor polynomial of degree [n] of the exponential, in Horner form:
    a computable stand-in for [np.exp] on the finite values. *)
Fixpoint exp_horner (n : nat) (k : Z) (x : Q) : Q :=
  match n with
  | O => 1
  | S n' => 1 + x / inject_Z k * exp_horner n' (k + 1) x
  end.

Definition exp_series (n : nat) (x : Q) : Q := exp_horner n 1 x.

(** Modelled from the spec: [tools.gaussian_distribution], which is not in
    [power_curves.py].  "The standard normal density formula evaluated at
    x with mean mu and standard deviation sigma",
    [1 / (sigma * sqrt(2 pi)) * exp(-(x - mu)**2 / (2 * sigma**2))], in
    numpy's arithmetic; [exp] and [sqrt_2pi] stand for [np.exp] on finite
    values and for [np.sqrt(2 * np.pi)]. *)
Definition gaussian_distribution (exp : Q -> Q) (sqrt_2pi : Q)
           (function_variable standard_deviation mean : Q) : npfloat :=
  fmul (fdiv (Fin 1) (Fin (standard_deviation * sqrt_2pi)))
       (fexp exp
          (fdiv (Fin (- ((function_variable - mean)
                         * (function_variable - mean))))
                (Fin (2 * (standard_deviation * standard_deviation))))).

(** The same with computable stand-ins: the Taylor polynomial of degree 8
    and 2.506628. *)
Definition gaussian_distribution_approx : Q -> Q -> Q -> npfloat :=
  gaussian_distribution (exp_series 8) (2506628 # 1000000).

End Tools.


(** ** pandas *)

Module Pd.

(** A frame after [set_index('wind_speed')]: index label and the value of
    its one remaining column, row by row. *)
Definition frame : Type := list (Q * Q).

(** A column with its index; [None] is a missing entry (NaN). *)
Definition column : Type := list (Q * option Q).

(** The value at label [k], if the index has it. *)
Fixpoint loc (k : Q) (f : frame) : option Q :=
  match f with
  | [] => None
  | (j, v) :: f' => if Qeq_bool j k then Some v else loc k f'
  end.

(** Whether the index has the label [k]. *)
Definition has (idx : list Q) (k : Q) : bool :=
  existsb (fun j => Qeq_bool j k) idx.

(** [Index.union(other, sort=False)]: the labels of the index in their
    order, followed by the labels of [other] that it lacks, in theirs. *)
Definition union (a b : list Q) : list Q :=
  a ++ filter (fun k => negb (has a k)) b.

(** [pd.concat([a, b], axis=1)]: an outer join that does not sort (the
    call passes no [sort], which is [False]).  Both frames are reindexed on
    the union of their indexes, the labels of [a] first; a label that a
    frame lacks gives a missing entry in its column.  The indexes have no
    label twice (pandas does not align an index that has). *)
Definition concat_axis1 (a b : frame) : list (Q * (option Q * option Q)) :=
  map (fun k => (k, (loc k a, loc k b)))
      (union (map fst a) (map fst b)).

Definition first_column (df : list (Q * (option Q * option Q))) : column :=
  map (fun r => (fst r, fst (snd r))) df.

Definition second_column (df : list (Q * (option Q * option Q))) : column :=
  map (fun r => (fst r, snd (snd r))) df.

(** [Series.interpolate(method=...)]: ['linear'] places the entries at
    their positions 0, 1, 2, ...; ['index'] places them at their index
    labels. *)
Inductive method : Type := Linear | Index.

Definition inds (m : method) (s : column) : list Q :=
  match m with
  | Linear => map (fun i => inject_Z (Z.of_nat i)) (seq 0 (length s))
  | Index => map fst s
  end.

(** [inds[valid], yvalues[valid]] *)
Fixpoint valid_points (xs : list Q) (ys : list (option Q)) : list (Q * Q) :=
  match xs, ys with
  | x :: xs', Some y :: ys' => (x, y) :: valid_points xs' ys'
  | _ :: xs', None :: ys' => valid_points xs' ys'
  | _, _ => []
  end.

(** A point put at its place among points of increasing x. *)
Fixpoint insert_point (p : Q * Q) (pts : list (Q * Q)) : list (Q * Q) :=
  match pts with
  | [] => [p]
  | q :: pts' =>
      if Qle_bool (fst p) (fst q) then p :: pts else q :: insert_point p pts'
  end.

(** [indexer = np.argsort(inds[valid])]: the valid points in increasing
    x, as [np.interp] needs them. *)
Definition sort_points (pts : list (Q * Q)) : list (Q * Q) :=
  fold_right insert_point [] pts.

(** [result[invalid] = np.interp(inds[invalid], inds[valid][indexer],
    yvalues[valid][indexer])], then the missing entries that come before
    the first valid one in the column are put back (the default
    [limit_direction='forward']).  [(x0, y0) :: rest] are the sorted valid
    points; [seen_valid] tells whether a valid entry has been passed. *)
Fixpoint fill (x0 y0 : Q) (rest : list (Q * Q)) (seen_valid : bool)
         (xs : list Q) (ys : list (option Q)) : list (option Q) :=
  match xs, ys with
  | x :: xs', Some y :: ys' => Some y :: fill x0 y0 rest true xs' ys'
  | x :: xs', None :: ys' =>
      (if seen_valid
       then Some (Np.interp_nonempty x x0 y0 rest None None)
       else None)
        :: fill x0 y0 rest seen_valid xs' ys'
  | _, _ => []
  end.

Definition interpolate (m : method) (s : column) : column :=
  let xs := inds m s in
  let ys := map snd s in
  match sort_points (valid_points xs ys) with
  | [] => s
  | (x0, y0) :: rest => combine (map fst s) (fill x0 y0 rest false xs ys)
  end.

(** The product of two columns on the same index; missing where either
    is. *)
Definition mul (a b : column) : column :=
  map (fun r =>
         (fst (fst r),
          match snd (fst r), snd (snd r) with
          | Some x, Some y => Some (x * y)
          | _, _ => None
          end))
      (combine a b).

Fixpoint dropna (s : column) : frame :=
  match s with
  | [] => []
  | (k, Some v) :: s' => (k, v) :: dropna s'
  | (_, None) :: s' => dropna s'
  end.

End Pd.

(** ** wake_losses_to_power_curve *)

(** What a caller may pass as [wind_farm_efficiency].  A [DataFrame] has the
    columns ['wind_speed'] and ['efficiency'], a [Dict] the same as keys. *)
Inductive py_value : Type :=
| PyNone
| PyFloat (x : Q)
| PyInt (n : Z)
| Dict (items : list (string * list Q))
| DataFrame (rows : list (Q * Q)).

(** The frame of lines 162-166 pairs the wind speeds with the power values
    row by row.  Where the two are not of equal number pandas pads the
    shorter with NaN, which these rows do not hold: the statements about
    the constant efficiency take them of equal number.  In the branch of
    the efficiency curve a wind speed without a power value gives no row
    in the end (line 185), and a power value without a wind speed gets the
    index label NaN, with which [interpolate] raises (with several such
    labels the index has a label twice, see [Pd.concat_axis1]). *)
Definition wake_losses_to_power_curve
           (power_curve_wind_speeds power_curve_values : list Q)
           (wake_losses_method : string) (wind_farm_efficiency : py_value)
  : result (list (Q * Q)) :=
  let power_curve_df := combine power_curve_wind_speeds power_curve_values in
  if String.eqb wake_losses_method "constant_efficiency" then
    match wind_farm_efficiency with
    | PyFloat e =>
        Ok (combine power_curve_wind_speeds
              (map (fun p => p * e) power_curve_values))
    | _ =>
        Raise (TypeError
                 "'wind_farm_efficiency' must be float if `wake_losses_method´ is '{0}'")
    end
  else if String.eqb wake_losses_method "wind_efficiency_curve" then
    match wind_farm_efficiency with
    | Dict _ => Raise (AttributeError "dict" "set_index")
    | DataFrame efficiency_df =>
        if (length power_curve_wind_speeds <? length power_curve_values)%nat
        then
          Raise (NotImplementedError
                   "Interpolation with NaNs in the index has not been implemented. Try filling those NaNs before interpolating.")
        else
          let df := Pd.concat_axis1 power_curve_df efficiency_df in
          let reduced_power :=
            Pd.mul (Pd.first_column df)
                   (Pd.interpolate Pd.Index (Pd.second_column df)) in
          Ok (Pd.dropna reduced_power)
    | _ =>
        Raise (TypeError
                 "'wind_farm_efficiency' must be a dictionary or pd.DataFrame if `wake_losses_method´ is '{0}'")
    end
  else
    Raise (ValueError
             ("`wake_losses_method` is " ++ wake_losses_method ++
              " but should be None, 'constant_efficiency' or 'wind_efficiency_curve'")).

(** ** Vocabulary of the statements *)


(** The same with each sum computed by [add]. *)
Fixpoint sums_from (add : Q -> Q -> Q) (prev step : Q) (l : list Q) : Prop :=
  match l with
  | [] => True
  | x :: l' => x = add prev step /\ sums_from add x step l'
  end.

(** Whether the first [n] sums from [x] on are exact: none is rounded. *)
Fixpoint exact_sums (add : Q -> Q -> Q) (x step : Q) (n : nat) : bool :=
  match n with
  | O => true
  | S n' =>
      Qeq_bool (add x step) (x + step)
      && exact_sums add (add x step) step n'
  end.

(** Strictly ascending wind speeds. *)
Definition ascending (l : list Q) : Prop := StronglySorted Qlt l.

(** No wind speed twice. *)
Definition distinct (l : list Q) : Prop :=
  StronglySorted (fun a b => ~ a == b) l.

(** Two curves with the same rows, up to the value of the fractions. *)
Definition curve_eq (a b : list (Q * Q)) : Prop :=
  Forall2 (fun r s => fst r == fst s /\ snd r == snd s) a b.

(** The wind-efficiency-curve branch as section 4.2 of the specification
    words it: missing efficiencies are filled "as if evenly spaced by
    rank, not by actual wind-speed distance", which is pandas'
    [method='linear'].  Everything else is as in
    [wake_losses_to_power_curve]. *)
Definition reduced_power_by_rank
           (power_curve_wind_speeds power_curve_values : list Q)
           (efficiency_df : list (Q * Q)) : list (Q * Q) :=
  let df := Pd.concat_axis1
              (combine power_curve_wind_speeds power_curve_values)
              efficiency_df in
  Pd.dropna (Pd.mul (Pd.first_column df)
                    (Pd.interpolate Pd.Linear (Pd.second_column df))).

(** The efficiency that the wind-efficiency-curve branch applies at the
    wind speed [k] when it applies one: the frame's own entry [e] where it
    has one, else the value that [np.interp] reads off the rows of the
    frame in increasing wind speed, [(x0, y0) :: rest]. *)
Definition filled (x0 y0 : Q) (rest : list (Q * Q)) (k : Q) (e : option Q)
  : Q :=
  match e with
  | Some v => v
  | None => Np.interp_nonempty k x0 y0 rest None None
  end.

(** The rows of a power curve from the first one on whose wind speed the
    efficiency frame [ec] has. *)
Fixpoint from_first_given (ec : Pd.frame) (rows : list (Q * Q))
  : list (Q * Q) :=
  match rows with
  | [] => []
  | (w, p) :: rows' =>
      match Pd.loc w ec with
      | Some _ => rows
      | None => from_first_given ec rows'
      end
  end.

(** * Properties *)

(** ** Comparisons and indexing *)

Lemma Qlt_bool_iff (x y : Q) : Qlt_bool x y = true <-> x < y.
Proof.
  unfold Qlt_bool. rewrite negb_true_iff.
  split; intro H.
  - apply Qnot_le_lt. intro Hle. apply Qle_bool_iff in Hle. congruence.
  - destruct (Qle_bool y x) eqn:E; [|reflexivity].
    apply Qle_bool_iff in E. exfalso. apply (Qlt_not_le _ _ H E).
Qed.

Lemma Qlt_bool_false_iff (x y : Q) : Qlt_bool x y = false <-> y <= x.
Proof.
  unfold Qlt_bool. rewrite negb_false_iff. apply Qle_bool_iff.
Qed.

Lemma Qeq_bool_false_iff (x y : Q) : Qeq_bool x y = false <-> ~ x == y.
Proof.
  split.
  - apply Qeq_bool_neq.
  - intro H. destruct (Qeq_bool x y) eqn:E; [|reflexivity].
    apply Qeq_bool_iff in E. contradiction.
Qed.

Lemma neg_index_1_snoc {A : Type} (l : list A) (a : A) :
  Py.neg_index 1 (l ++ [a]) = Ok a.
Proof.
  unfold Py.neg_index. rewrite length_app. simpl.
  replace (length l + 1 <? 1)%nat with false
    by (symmetry; apply Nat.ltb_ge; lia).
  replace (length l + 1 - 1)%nat with (length l) by lia.
  rewrite nth_error_app2 by lia. rewrite Nat.sub_diag. reflexivity.
Qed.

Lemma neg_index_ok {A : Type} (k : nat) (l : list A) :
  (1 <= k <= length l)%nat -> exists a, Py.neg_index k l = Ok a.
Proof.
  intros [H1 H2]. unfold Py.neg_index.
  replace (length l <? k)%nat with false by (symmetry; apply Nat.ltb_ge; lia).
  destruct (nth_error l (length l - k)) eqn:E.
  - eauto.
  - apply nth_error_None in E. lia.
Qed.

Lemma neg_index_raise_short {A : Type} (k : nat) (l : list A) :
  (length l < k)%nat -> Py.neg_index k l = Raise IndexError.
Proof.
  intro H. unfold Py.neg_index.
  replace (length l <? k)%nat with true by (symmetry; apply Nat.ltb_lt; lia).
  reflexivity.
Qed.

Lemma snoc_of_nonempty {A : Type} (l : list A) :
  l <> [] -> exists l' a, l = l' ++ [a].
Proof.
  intro H. destruct (exists_last H) as [l' [a E]]. eauto.
Qed.

Lemma tail_step_length (ws : list Q) (step : Q) :
  tail_step ws = Ok step -> (6 <= length ws)%nat.
Proof.
  unfold tail_step. intro H.
  destruct (Nat.lt_ge_cases (length ws) 6) as [Hlt|]; [|assumption].
  exfalso.
  destruct (Py.neg_index 5 ws) eqn:E5; simpl in H; [|discriminate].
  rewrite (neg_index_raise_short 6 ws Hlt) in H. discriminate.
Qed.

(** ** The tail extension (lines 80-87) *)

Lemma last_cons {A : Type} (a d : A) (l : list A) :
  last (a :: l) d = last l a.
Proof.
  revert a d. induction l as [|b l IH]; intros a d; [reflexivity|].
  change (last (a :: b :: l) d) with (last (b :: l) d).
  rewrite (IH b d), (IH b a). reflexivity.
Qed.

Lemma extend_exit (fuel : nat) (step : Q) (ws vs : list Q) (final : Q) :
  Py.neg_index 1 ws = Ok final -> 40 <= final ->
  extend_to_40 fuel step ws vs = Some (Ok (ws, vs)).
Proof.
  intros E H. apply Qlt_bool_false_iff in H.
  destruct fuel; simpl; rewrite E, H; reflexivity.
Qed.

Lemma extend_iterate (fuel : nat) (step : Q) (ws vs : list Q) (final v : Q) :
  final < 40 ->
  extend_to_40 (S fuel) step (ws ++ [final]) (vs ++ [v]) =
  extend_to_40 fuel step ((ws ++ [final]) ++ [final + step])
    ((vs ++ [v]) ++ [0]).
Proof.
  intro H. apply Qlt_bool_iff in H.
  simpl. rewrite !neg_index_1_snoc, H. reflexivity.
Qed.

Lemma extend_out_of_fuel (step : Q) (ws vs : list Q) (final : Q) :
  Py.neg_index 1 ws = Ok final -> final < 40 ->
  extend_to_40 0 step ws vs = None.
Proof.
  intros E H. apply Qlt_bool_iff in H. simpl. rewrite E, H. reflexivity.
Qed.


(** A number of iterations that is enough: the distance to 40 in steps,
    rounded up. *)
Lemma iterations_bound (step final : Q) :
  0 < step ->
  40 - final <=
  inject_Z (Z.of_nat (Z.to_nat (Qceiling ((40 - final) / step)))) * step.
Proof.
  intro Hstep.
  set (c := Qceiling ((40 - final) / step)).
  assert (Hc : (40 - final) / step <= inject_Z c) by apply Qle_ceiling.
  assert (Hmax : inject_Z c <= inject_Z (Z.of_nat (Z.to_nat c))).
  { rewrite <- Zle_Qle. lia. }
  assert (Hd : (40 - final) / step <= inject_Z (Z.of_nat (Z.to_nat c)))
    by (eapply Qle_trans; eassumption).
  apply (Qmult_le_compat_r _ _ step) in Hd; [|lra].
  assert (E : (40 - final) / step * step == 40 - final).
  { field. lra. }
  rewrite E in Hd. exact Hd.
Qed.

(** With a step that is not positive the loop is never left. *)
Lemma extend_never_leaves (fuel : nat) :
  forall (step : Q) (ws vs : list Q) (final v : Q),
    step <= 0 -> final < 40 ->
    extend_to_40 fuel step (ws ++ [final]) (vs ++ [v]) = None.
Proof.
  induction fuel as [|fuel IH]; intros step ws vs final v Hstep Hlt.
  - apply extend_out_of_fuel with final; [apply neg_index_1_snoc|assumption].
  - rewrite extend_iterate by assumption.
    apply IH; [assumption|lra].
Qed.

(** ** Ascending sequences *)




Lemma ascending_nth (l : list Q) :
  ascending l ->
  forall (i j : nat) (a b : Q),
    (i < j)%nat -> nth_error l i = Some a -> nth_error l j = Some b -> a < b.
Proof.
  unfold ascending. induction 1 as [|c l Hs IH Hf]; intros i j a b Hij Hi Hj.
  - destruct i; discriminate.
  - destruct j as [|j]; [lia|]. simpl in Hj.
    destruct i as [|i]; simpl in Hi.
    + injection Hi as <-. rewrite Forall_forall in Hf.
      apply Hf. eapply nth_error_In; eassumption.
    + apply (IH i j); [lia|assumption|assumption].
Qed.


(** ** Python floats: the error of a rounding *)

Lemma round_half_even_near (q : Q) :
  Qabs (inject_Z (Float64.round_half_even q) - q) <= 1 # 2.
Proof.
  unfold Float64.round_half_even.
  pose proof (Qfloor_le q) as Hlo. pose proof (Qlt_floor q) as Hhi.
  rewrite inject_Z_plus in Hhi. change (inject_Z 1) with 1 in Hhi.
  apply Qabs_Qle_condition.
  destruct (Qlt_bool (q - inject_Z (Qfloor q)) (1 # 2)) eqn:E1.
  - apply Qlt_bool_iff in E1. split; lra.
  - apply Qlt_bool_false_iff in E1.
    destruct (Qlt_bool (1 # 2) (q - inject_Z (Qfloor q))) eqn:E2.
    + rewrite inject_Z_plus. change (inject_Z 1) with 1. split; lra.
    + apply Qlt_bool_false_iff in E2.
      destruct (Z.even (Qfloor q)).
      * split; lra.
      * rewrite inject_Z_plus. change (inject_Z 1) with 1. split; lra.
Qed.

Lemma floor_log2_below (q : Q) : 0 < q -> 2 ^ Float64.floor_log2 q <= q.
Proof.
  intro Hq. unfold Float64.floor_log2.
  set (n := Qnum q). set (d := Qden q).
  destruct (Qle_bool (2 ^ (Z.log2 n - Z.log2 (Z.pos d))) q) eqn:E.
  - apply Qle_bool_iff in E. exact E.
  - assert (Hn : (0 < n)%Z).
    { unfold n. destruct q as [qn qd]. unfold Qlt in Hq. simpl in *. lia. }
    pose proof (Z.log2_spec n Hn) as [Hn1 _].
    assert (Hd : (0 < Z.pos d)%Z) by lia.
    pose proof (Z.log2_spec (Z.pos d) Hd) as [_ Hd2].
    pose proof (Z.log2_nonneg n) as Hln.
    pose proof (Z.log2_nonneg (Z.pos d)) as Hld.
    set (a := Z.log2 n) in *. set (b := Z.log2 (Z.pos d)) in *.
    replace (a - b - 1)%Z with (a - (b + 1))%Z by lia.
    rewrite Qpower_minus by discriminate.
    assert (Ha : inject_Z (2 ^ a) == 2 ^ a) by (apply Zpower_Qpower; lia).
    assert (Hb : inject_Z (2 ^ (b + 1)) == 2 ^ (b + 1))
      by (apply Zpower_Qpower; lia).
    change (inject_Z 2) with 2 in Ha, Hb.
    rewrite <- Ha, <- Hb.
    assert (Hbpos : 0 < inject_Z (2 ^ (b + 1))).
    { rewrite Hb. apply Qpower_0_lt. reflexivity. }
    apply Qle_shift_div_r; [assumption|].
    assert (Eq : q == inject_Z n / inject_Z (Z.pos d)).
    { unfold n, d. destruct q as [qn qd]. simpl. rewrite Qmake_Qdiv.
      reflexivity. }
    assert (Hdpos : 0 < inject_Z (Z.pos d)) by reflexivity.
    assert (Hnd : inject_Z n == q * inject_Z (Z.pos d)).
    { rewrite Eq. field. intro H. rewrite H in Hdpos. discriminate. }
    assert (H1 : inject_Z (2 ^ a) <= inject_Z n)
      by (rewrite <- Zle_Qle; assumption).
    assert (H2 : inject_Z (Z.pos d) <= inject_Z (2 ^ (b + 1))).
    { rewrite <- Zle_Qle. unfold Z.succ in Hd2. lia. }
    apply Qle_trans with (inject_Z n); [assumption|].
    rewrite Hnd. apply Qmult_le_l; assumption.
Qed.

(** A rounding moves a number by at most the unit roundoff times its
    size. *)
Lemma round_error (q : Q) :
  Qabs (Float64.round q - q) <= Float64.unit_roundoff * Qabs q.
Proof.
  unfold Float64.round.
  destruct (Qeq_bool q 0) eqn:E0.
  - apply Qeq_bool_iff in E0. rewrite E0. vm_compute. discriminate.
  - assert (Hq : ~ q == 0) by (apply Qeq_bool_neq; assumption).
    assert (Ha : 0 < Qabs q).
    { destruct (Qlt_le_dec q 0) as [Hneg|Hpos].
      - rewrite Qabs_neg by lra. lra.
      - rewrite Qabs_pos by assumption.
        destruct (Qlt_le_dec 0 q) as [|Hle]; [assumption|].
        exfalso. apply Hq. lra. }
    pose proof (floor_log2_below (Qabs q) Ha) as Hk.
    set (k := Float64.floor_log2 (Qabs q)) in *.
    set (e := (k - 52)%Z).
    assert (He : 0 < 2 ^ e) by (apply Qpower_0_lt; reflexivity).
    set (t := q / 2 ^ e).
    pose proof (round_half_even_near t) as Hm.
    set (m := inject_Z (Float64.round_half_even t)) in *.
    rewrite Qred_correct.
    assert (Eq : m * 2 ^ e - q == (m - t) * 2 ^ e).
    { unfold t. field. intro H. rewrite H in He. discriminate. }
    rewrite Eq, Qabs_Qmult, (Qabs_pos (2 ^ e)) by lra.
    assert (Ek : 2 ^ e == 2 ^ k * 2 ^ (-52)).
    { unfold e. replace (k - 52)%Z with (k + -52)%Z by lia.
      apply Qpower_plus. discriminate. }
    assert (H1 : Qabs (m - t) * 2 ^ e <= (1 # 2) * 2 ^ e).
    { apply Qmult_le_compat_r; [assumption|lra]. }
    eapply Qle_trans; [exact H1|].
    rewrite Ek. unfold Float64.unit_roundoff.
    setoid_replace ((1 # 2) * (2 ^ k * 2 ^ (-52))) with (2 ^ (-53) * 2 ^ k).
    + apply Qmult_le_l; [reflexivity|assumption].
    + change (2 ^ (-52)) with (/ (4503599627370496 # 1)).
      change (2 ^ (-53)) with (/ (9007199254740992 # 1)).
      field.
Qed.

Lemma add_error (x y : Q) :
  Qabs (Float64.add x y - (x + y))
  <= Float64.unit_roundoff * Qabs (x + y).
Proof.
  apply round_error.
Qed.

(** ** The tail extension with the sums rounded *)

Lemma extend_to_40_exact (fuel : nat) :
  forall (step : Q) (ws vs : list Q),
    extend_to_40_with Qplus fuel step ws vs = extend_to_40 fuel step ws vs.
Proof.
  induction fuel as [|fuel IH]; intros step ws vs; simpl.
  - reflexivity.
  - destruct (Py.neg_index 1 ws); [|reflexivity].
    destruct (Qlt_bool a 40); [|reflexivity].
    destruct (Py.neg_index 1 vs); [|reflexivity].
    apply IH.
Qed.

Lemma extend_with_exit (add : Q -> Q -> Q) (fuel : nat) (step : Q)
      (ws vs : list Q) (final : Q) :
  Py.neg_index 1 ws = Ok final -> 40 <= final ->
  extend_to_40_with add fuel step ws vs = Some (Ok (ws, vs)).
Proof.
  intros E H. apply Qlt_bool_false_iff in H.
  destruct fuel; simpl; rewrite E, H; reflexivity.
Qed.

Lemma extend_with_iterate (add : Q -> Q -> Q) (fuel : nat) (step : Q)
      (ws vs : list Q) (final v : Q) :
  final < 40 ->
  extend_to_40_with add (S fuel) step (ws ++ [final]) (vs ++ [v]) =
  extend_to_40_with add fuel step ((ws ++ [final]) ++ [add final step])
    ((vs ++ [v]) ++ [0]).
Proof.
  intro H. apply Qlt_bool_iff in H.
  simpl. rewrite !neg_index_1_snoc, H. reflexivity.
Qed.

Lemma extend_with_out_of_fuel (add : Q -> Q -> Q) (step : Q)
      (ws vs : list Q) (final : Q) :
  Py.neg_index 1 ws = Ok final -> final < 40 ->
  extend_to_40_with add 0 step ws vs = None.
Proof.
  intros E H. apply Qlt_bool_iff in H. simpl. rewrite E, H. reflexivity.
Qed.

(** When every sum below 40 moves the wind speed on by [delta] at least
    and by [eps] at most, the loop is left after as many iterations as
    points are added; [n] bounds their number. *)
Lemma extend_with_reaches_40 (add : Q -> Q -> Q) (step lower delta eps : Q)
      (n : nat) :
  0 < delta ->
  (forall y, lower <= y -> y < 40 ->
             y + delta <= add y step /\ add y step <= y + eps) ->
  forall (ws vs : list Q) (x v : Q),
    lower <= x ->
    40 - x <= inject_Z (Z.of_nat n) * delta ->
    exists added,
      (forall fuel, (length added <= fuel)%nat ->
         extend_to_40_with add fuel step (ws ++ [x]) (vs ++ [v]) =
         Some (Ok ((ws ++ [x]) ++ added,
                   (vs ++ [v]) ++ repeat 0 (length added))))
      /\ (forall fuel, (fuel < length added)%nat ->
            extend_to_40_with add fuel step (ws ++ [x]) (vs ++ [v]) = None)
      /\ sums_from add x step added
      /\ ascending (x :: added)
      /\ (length added <= n)%nat
      /\ 40 <= last added x
      /\ (x < 40 -> added <> [] /\ last added x < 40 + eps).
Proof.
  intros Hdelta Hadd.
  induction n as [|n IH]; intros ws vs x v Hlow Hn.
  - assert (H40 : 40 <= x).
    { change (inject_Z (Z.of_nat 0)) with 0 in Hn. lra. }
    exists []. simpl. rewrite !app_nil_r.
    split; [|split; [|split; [|split; [|split; [|split]]]]].
    + intros fuel _. apply extend_with_exit with x;
        [apply neg_index_1_snoc|assumption].
    + intros fuel Hf. lia.
    + exact I.
    + unfold ascending. repeat constructor.
    + lia.
    + assumption.
    + intro Hlt. exfalso. lra.
  - destruct (Qlt_le_dec x 40) as [Hlt|H40].
    + destruct (Hadd x Hlow Hlt) as [Hup Hdown].
      assert (Hn' : 40 - add x step <= inject_Z (Z.of_nat n) * delta).
      { rewrite Nat2Z.inj_succ in Hn. unfold Z.succ in Hn.
        rewrite inject_Z_plus in Hn. change (inject_Z 1) with 1 in Hn. lra. }
      assert (Hlow' : lower <= add x step) by lra.
      destruct (IH (ws ++ [x]) (vs ++ [v]) (add x step) 0 Hlow' Hn')
        as [added [Hrun [Hshort [Hsums [Hasc [Hlen [Hge Hlast]]]]]]].
      exists (add x step :: added).
      split; [|split; [|split; [|split; [|split; [|split]]]]].
      * intros fuel Hf. simpl in Hf.
        destruct fuel as [|fuel]; [lia|].
        rewrite extend_with_iterate by assumption.
        rewrite Hrun by lia. simpl.
        rewrite <- !app_assoc. reflexivity.
      * intros fuel Hf. simpl in Hf.
        destruct fuel as [|fuel].
        -- apply extend_with_out_of_fuel with x;
             [apply neg_index_1_snoc|assumption].
        -- rewrite extend_with_iterate by assumption. apply Hshort. lia.
      * simpl. split; [reflexivity|assumption].
      * unfold ascending in *. constructor; [assumption|].
        inversion Hasc as [|? ? _ Hf]; subst.
        constructor; [lra|].
        eapply Forall_impl; [|exact Hf]. simpl. intros y Hy. lra.
      * simpl. lia.
      * rewrite last_cons. assumption.
      * intros _. split; [discriminate|].
        rewrite last_cons.
        destruct (Qlt_le_dec (add x step) 40) as [Hlt'|Hge'].
        -- destruct (Hlast Hlt') as [_ Hl]. assumption.
        -- destruct added as [|y added].
           ++ simpl. lra.
           ++ exfalso.
              assert (Hfuel : (0 < length (y :: added))%nat) by (simpl; lia).
              pose proof (Hshort 0%nat Hfuel) as Hnone.
              rewrite (extend_with_exit add 0 step _ _ (add x step)) in Hnone;
                [discriminate|apply neg_index_1_snoc|assumption].
    + exists []. simpl. rewrite !app_nil_r.
      split; [|split; [|split; [|split; [|split; [|split]]]]].
      * intros fuel _. apply extend_with_exit with x;
          [apply neg_index_1_snoc|assumption].
      * intros fuel Hf. lia.
      * exact I.
      * unfold ascending. repeat constructor.
      * lia.
      * assumption.
      * intro Hlt. exfalso. lra.
Qed.

(** With the float sum, a step of 2 ^ -60 does not move the wind speed 39:
    the loop is never left. *)
Lemma extend_with_stuck_at_39 (fuel : nat) :
  forall (ws vs : list Q) (v : Q),
    extend_to_40_with Float64.add fuel (1 # 1152921504606846976)
      (ws ++ [39]) (vs ++ [v]) = None.
Proof.
  induction fuel as [|fuel IH]; intros ws vs v.
  - apply extend_with_out_of_fuel with 39;
      [apply neg_index_1_snoc|reflexivity].
  - rewrite extend_with_iterate by reflexivity.
    replace (Float64.add 39 (1 # 1152921504606846976)) with 39
      by (vm_compute; reflexivity).
    apply IH.
Qed.

(** ** The loop over the wind speeds (lines 88-109) *)

Lemma for_each_ok {A B : Type} (f : A -> result B) (P : A -> B -> Prop)
      (l : list A) :
  (forall a, In a l -> exists b, f a = Ok b /\ P a b) ->
  exists bs, Py.for_each f l = Ok bs /\ Forall2 P l bs.
Proof.
  induction l as [|a l IH]; intro H.
  - exists []. split; [reflexivity|constructor].
  - destruct (H a (or_introl eq_refl)) as [b [Eb Pb]].
    destruct IH as [bs [Ebs Pbs]].
    { intros a' Ha'. apply H. right. assumption. }
    exists (b :: bs). split.
    + simpl. rewrite Eb. simpl. rewrite Ebs. reflexivity.
    + constructor; assumption.
Qed.


Lemma arange_ok (start stop step : Q) :
  ~ step == 0 -> exists block, Np.arange start stop step = Ok block.
Proof.
  intro H. unfold Np.arange.
  rewrite (proj2 (Qeq_bool_false_iff step 0) H). eauto.
Qed.

Lemma interp_ok (x : Q) (xp fp : list Q) (left right : option Q) :
  length xp = length fp -> xp <> [] ->
  exists p, Np.interp x xp fp left right = Ok p.
Proof.
  intros Hlen Hne. unfold Np.interp.
  rewrite Hlen, Nat.eqb_refl. simpl.
  destruct xp as [|x0 xp]; [contradiction|].
  destruct fp as [|y0 fp]; [discriminate|].
  simpl. eauto.
Qed.



Lemma nan_replaced (s : npfloat) :
  isnan (if isnan s then Fin 0 else s) = false.
Proof.
  destruct s; reflexivity.
Qed.

Lemma neg_index_1_inv {A : Type} (l : list A) (a : A) :
  Py.neg_index 1 l = Ok a -> exists l', l = l' ++ [a].
Proof.
  intro H. destruct l as [|b l].
  - discriminate.
  - destruct (snoc_of_nonempty (b :: l)) as [l' [c E]]; [discriminate|].
    rewrite E in H. rewrite neg_index_1_snoc in H. injection H as ->.
    exists l'. assumption.
Qed.

Lemma map_fst_combine {A B : Type} (l : list A) (m : list B) :
  length l = length m -> map fst (combine l m) = l.
Proof.
  revert m. induction l as [|a l IH]; intros [|b m] H; try discriminate.
  - reflexivity.
  - simpl. f_equal. apply IH. simpl in H. lia.
Qed.

Lemma map_snd_combine {A B : Type} (l : list A) (m : list B) :
  length l = length m -> map snd (combine l m) = m.
Proof.
  revert m. induction l as [|a l IH]; intros [|b m] H; try discriminate.
  - reflexivity.
  - simpl. f_equal. apply IH. simpl in H. lia.
Qed.


Section SmoothProperties.

Variable gaussian_distribution : Q -> Q -> Q -> npfloat.

Lemma smoothed_value_at_ok (ws vs : list Q) (bw : Q) (method : str)
      (mean nsd v : Q) :
  ~ bw == 0 -> length ws = length vs -> ws <> [] ->
  exists y,
    smoothed_value_at gaussian_distribution ws vs bw method mean (Some nsd) v
    = Ok y
    /\ isnan y = false.
Proof.
  intros Hbw Hlen Hne. unfold smoothed_value_at.
  destruct (arange_ok (-(15)) (15 + bw) bw Hbw) as [block ->].
  simpl.
  match goal with
  | |- context [Py.for_each ?f ?l] =>
      destruct (for_each_ok f (fun _ _ => True) l) as [terms [-> _]]
  end.
  - intros w _. destruct (interp_ok w ws vs (Some 0) (Some 0) Hlen Hne)
      as [p ->]. simpl. eauto.
  - simpl. eexists. split; [reflexivity|]. apply nan_replaced.
Qed.



Lemma smooth_after_extension (fuel : nat) (ws vs ws' vs' : list Q) (bw : Q)
      (method : str) (mean : Q) (kw : kwargs) (nsd : option Q) (step : Q) :
  select_normalized_standard_deviation method kw = Ok nsd ->
  tail_step ws = Ok step ->
  extend_to_40 fuel step ws vs = Some (Ok (ws', vs')) ->
  smooth_power_curve gaussian_distribution fuel ws vs bw method mean kw =
  Some (values <- Py.for_each
                    (smoothed_value_at gaussian_distribution ws' vs' bw
                       method mean nsd) ws' ;;
        Ok (combine ws' values)).
Proof.
  intros Hsel Hstep Hext.
  unfold smooth_power_curve.
  rewrite Hsel, Hstep, Hext. reflexivity.
Qed.


(** With a tail step that is not positive and a final wind speed below 40
    the call ends only if the selection of the method raises. *)
Lemma nonpositive_step_outcome (fuel : nat) (ws vs : list Q) (bw : Q)
      (method : str) (mean : Q) (kw : kwargs) (step final : Q) :
  tail_step ws = Ok step -> step <= 0 ->
  Py.neg_index 1 ws = Ok final -> final < 40 -> vs <> [] ->
  smooth_power_curve gaussian_distribution fuel ws vs bw method mean kw =
  match select_normalized_standard_deviation method kw with
  | Raise e => Some (Raise e)
  | Ok _ => None
  end.
Proof.
  intros Hstep Hle Hfinal Hlt Hvs.
  unfold smooth_power_curve.
  destruct (select_normalized_standard_deviation method kw); [|reflexivity].
  rewrite Hstep.
  destruct (neg_index_1_inv ws final Hfinal) as [ws0 ->].
  destruct (snoc_of_nonempty vs Hvs) as [vs0 [v ->]].
  rewrite extend_never_leaves by assumption. reflexivity.
Qed.

End SmoothProperties.


Lemma last_of_extension {A : Type} (l added : list A) (d : A) :
  added <> [] -> Py.neg_index 1 (l ++ added) = Ok (last added d).
Proof.
  intro H. destruct (snoc_of_nonempty added H) as [a' [x ->]].
  rewrite app_assoc, neg_index_1_snoc, last_last. reflexivity.
Qed.

(** ** The claims about [smooth_power_curve] *)

(** C5, as the code has it.  The sums of line 85 are float sums: [add] is
    an addition whose result is off the exact sum by at most [u] times its
    size, as the float addition is with the unit roundoff 2 ^ -53.  For a
    positive step that exceeds that error on the way to 40, and a final
    wind speed below 40, the extension loop is left after exactly
    [length added] iterations, [added] being the wind speeds it appends:
    each is the float sum of the one before and [step] and is greater than
    the one before, each comes with the power value 0, their number is at
    most the distance to 40 divided by the least progress of a sum,
    rounded up, and the final wind speed of the extended curve is at least
    40 and below 40 + [step] plus the error. *)
Theorem tail_extension_terminates (add : Q -> Q -> Q) (u : Q)
        (ws vs : list Q) (step final : Q) :
  (forall x y, Qabs (add x y - (x + y)) <= u * Qabs (x + y)) ->
  0 <= u -> 0 < step ->
  Py.neg_index 1 ws = Ok final -> final < 40 ->
  u * (Qabs final + 40 + step) < step ->
  length vs = length ws ->
  exists added,
    added <> []
    /\ (forall fuel, (length added <= fuel)%nat ->
          extend_to_40_with add fuel step ws vs =
          Some (Ok (ws ++ added, vs ++ repeat 0 (length added))))
    /\ (forall fuel, (fuel < length added)%nat ->
          extend_to_40_with add fuel step ws vs = None)
    /\ sums_from add final step added
    /\ ascending (final :: added)
    /\ (length added <=
        Z.to_nat (Qceiling ((40 - final)
                            / (step - u * (Qabs final + 40 + step)))))%nat
    /\ exists final', Py.neg_index 1 (ws ++ added) = Ok final'
                      /\ 40 <= final'
                      /\ final' < 40 + step + u * (Qabs final + 40 + step).
Proof.
  intros Hadd Hu Hpos Hfinal Hlt Hstep Hvs.
  set (B := Qabs final + 40 + step) in *.
  set (delta := step - u * B).
  assert (Hdelta : 0 < delta) by (unfold delta; lra).
  assert (Hprogress : forall y, final <= y -> y < 40 ->
                        y + delta <= add y step
                        /\ add y step <= y + (step + u * B)).
  { intros y Hy Hy40.
    assert (Hsize : Qabs (y + step) <= B).
    { apply Qabs_Qle_condition. unfold B.
      pose proof (Qabs_nonneg final) as H0.
      pose proof (Qle_Qabs (- final)) as H1. rewrite Qabs_opp in H1.
      split; lra. }
    pose proof (Hadd y step) as Herr.
    assert (Hmul : u * Qabs (y + step) <= u * B).
    { rewrite (Qmult_comm u (Qabs (y + step))), (Qmult_comm u B).
      apply Qmult_le_compat_r; assumption. }
    apply Qabs_Qle_condition in Herr. destruct Herr as [Hl Hr].
    unfold delta. split; lra. }
  destruct (neg_index_1_inv ws final Hfinal) as [ws0 Ews].
  destruct (snoc_of_nonempty vs) as [vs0 [v Evs]].
  { destruct vs; [subst ws; rewrite length_app in Hvs; simpl in Hvs; lia|
                  discriminate]. }
  destruct (extend_with_reaches_40 add step final delta (step + u * B)
              (Z.to_nat (Qceiling ((40 - final) / delta))) Hdelta Hprogress
              ws0 vs0 final v (Qle_refl final)
              (iterations_bound delta final Hdelta))
    as [added [Hrun [Hshort [Hsums [Hasc [Hlen [Hge Hlast]]]]]]].
  destruct (Hlast Hlt) as [Hne Hup].
  exists added. subst ws vs.
  repeat (split; [assumption|]).
  exists (last added final).
  split; [apply last_of_extension; assumption|].
  split; [assumption|]. lra.
Qed.

Lemma tail_extension_terminates_witness :
  exists added,
    added <> []
    /\ (forall fuel, (length added <= fuel)%nat ->
          extend_to_40_with Float64.add fuel 8 [0; 8; 16; 24; 32; 39]
            [0; 1; 2; 3; 2; 0] =
          Some (Ok ([0; 8; 16; 24; 32; 39] ++ added,
                    [0; 1; 2; 3; 2; 0] ++ repeat 0 (length added))))
    /\ sums_from Float64.add 39 8 added
    /\ exists final',
        Py.neg_index 1 ([0; 8; 16; 24; 32; 39] ++ added) = Ok final'
        /\ 40 <= final'.
Proof.
  destruct (tail_extension_terminates Float64.add Float64.unit_roundoff
              [0; 8; 16; 24; 32; 39] [0; 1; 2; 3; 2; 0] 8 39)
    as [added [Hne [Hrun [_ [Hsums [_ [_ [final' [Hfinal [Hge _]]]]]]]]]].
  - apply add_error.
  - vm_compute. discriminate.
  - reflexivity.
  - reflexivity.
  - reflexivity.
  - vm_compute. reflexivity.
  - reflexivity.
  - exists added. split; [exact Hne|]. split; [exact Hrun|].
    split; [exact Hsums|].
    exists final'. split; assumption.
Defined.

(** C5 as stated fails: the curve with the wind speeds 0, 2 ^ -60, 10, 20,
    30, 39 is ascending and has the positive tail step 2 ^ -60 and the
    final wind speed 39; the float sum 39 + 2 ^ -60 is 39, and no number
    of iterations leaves the extension loop. *)
Lemma tiny_step_never_reaches_40 :
  ascending [0; 1 # 1152921504606846976; 10; 20; 30; 39]
  /\ tail_step [0; 1 # 1152921504606846976; 10; 20; 30; 39]
     = Ok (1 # 1152921504606846976)
  /\ 0 < 1 # 1152921504606846976
  /\ Float64.add 39 (1 # 1152921504606846976) = 39
  /\ ~ exists fuel outcome,
        extend_to_40_with Float64.add fuel (1 # 1152921504606846976)
          [0; 1 # 1152921504606846976; 10; 20; 30; 39] [0; 1; 2; 3; 2; 0]
        = Some outcome.
Proof.
  split; [unfold ascending; repeat constructor|].
  split; [reflexivity|]. split; [reflexivity|].
  split; [vm_compute; reflexivity|].
  intros [fuel [outcome H]].
  pose proof (extend_with_stuck_at_39 fuel
                [0; 1 # 1152921504606846976; 10; 20; 30] [0; 1; 2; 3; 2] 0)
    as Hstuck.
  simpl app in Hstuck. rewrite Hstuck in H. discriminate.
Qed.









(** C3.  The method 'Norgaard' on a valid curve: nothing is raised where
    the method is selected, the curve is extended to 40 (35 iterations
    here), and the first pass of the loop over the wind speeds raises
    [UnboundLocalError] for [normalized_standard_deviation]. *)
Theorem norgaard_raises_unbound_local
        (gaussian_distribution : Q -> Q -> Q -> npfloat) :
  select_normalized_standard_deviation (Py.literal "Norgaard") [] = Ok None
  /\ extend_to_40 34 1 [0; 1; 2; 3; 4; 5] [0; 10; 20; 30; 20; 0] = None
  /\ smooth_power_curve gaussian_distribution 35
       [0; 1; 2; 3; 4; 5] [0; 10; 20; 30; 20; 0] (1 # 2)
       (Py.literal "Norgaard") 0 []
     = Some (Raise (UnboundLocalError "normalized_standard_deviation")).
Proof.
  split; [reflexivity|]. split; vm_compute; reflexivity.
Qed.

(** C4, as the code has it.  For a curve whose tail step is not positive
    and whose final wind speed is below 40, nothing checks the step: the
    one error such a call can end with is the one that the selection of
    the method raises beforehand; otherwise no number of iterations leaves
    the extension loop, and no curve, partial or complete, is returned. *)
Theorem nonpositive_step_no_result
        (gaussian_distribution : Q -> Q -> Q -> npfloat)
        (ws vs : list Q) (bw : Q) (method : str) (mean : Q) (kw : kwargs)
        (step final : Q) :
  tail_step ws = Ok step -> step <= 0 ->
  Py.neg_index 1 ws = Ok final -> final < 40 ->
  length vs = length ws ->
  forall fuel,
    smooth_power_curve gaussian_distribution fuel ws vs bw method mean kw =
    match select_normalized_standard_deviation method kw with
    | Raise e => Some (Raise e)
    | Ok _ => None
    end.
Proof.
  intros Hstep Hle Hfinal Hlt Hvs fuel.
  apply nonpositive_step_outcome with step final; try assumption.
  pose proof (tail_step_length ws step Hstep).
  destruct vs; [simpl in Hvs; lia|discriminate].
Qed.

Lemma nonpositive_step_no_result_witness :
  tail_step [1; 1; 2; 3; 4; 5] = Ok 0
  /\ smooth_power_curve Tools.gaussian_distribution_approx 1000
       [1; 1; 2; 3; 4; 5] [0; 10; 20; 30; 20; 0] (1 # 2)
       (Py.literal "Staffell") 0 [] = None.
Proof.
  split; [reflexivity|].
  apply (nonpositive_step_no_result Tools.gaussian_distribution_approx
           [1; 1; 2; 3; 4; 5] [0; 10; 20; 30; 20; 0] (1 # 2)
           (Py.literal "Staffell") 0 [] 0 5).
  - reflexivity.
  - discriminate.
  - reflexivity.
  - reflexivity.
  - reflexivity.
Defined.

(** C4 as stated fails: with the tail step 0 (wind speeds 1, 1, 2, 3, 4, 5)
    and the method 'Staffell' no amount of fuel makes the call end with an
    exception. *)
Lemma nonpositive_step_raises_nothing :
  ~ exists fuel e,
      smooth_power_curve Tools.gaussian_distribution_approx fuel
        [1; 1; 2; 3; 4; 5] [0; 10; 20; 30; 20; 0] (1 # 2)
        (Py.literal "Staffell") 0 [] = Some (Raise e).
Proof.
  intros [fuel [e H]].
  rewrite (nonpositive_step_outcome Tools.gaussian_distribution_approx fuel
             [1; 1; 2; 3; 4; 5] [0; 10; 20; 30; 20; 0] (1 # 2)
             (Py.literal "Staffell") 0 [] 0 5) in H;
    try reflexivity; discriminate.
Qed.

(** ** numpy: reading a value off ascending sample points *)

Lemma interp_from_beyond (rest : list (Q * Q)) :
  forall (x0 y0 right w : Q),
    x0 < w -> Forall (fun c => fst c < w) rest ->
    interp_from w x0 y0 rest right = right.
Proof.
  induction rest as [|[x1 y1] rest IH]; intros x0 y0 right w Hx0 Hrest; simpl.
  - apply Qlt_bool_iff in Hx0. rewrite Hx0. reflexivity.
  - inversion Hrest as [|? ? Hx1 Hrest']; subst. simpl in Hx1.
    assert (E : Qlt_bool w x1 = false) by (apply Qlt_bool_false_iff; lra).
    rewrite E. apply IH; assumption.
Qed.

Lemma interp_from_between (pre : list (Q * Q)) :
  forall (x0 y0 a ea b eb : Q) (post : list (Q * Q)) (right w : Q),
    Forall (fun c => fst c <= w) pre -> a < w -> w < b ->
    interp_from w x0 y0 (pre ++ (a, ea) :: (b, eb) :: post) right =
    (eb - ea) / (b - a) * (w - a) + ea.
Proof.
  induction pre as [|[c yc] pre IH];
    intros x0 y0 a ea b eb post right w Hpre Ha Hb; simpl.
  - assert (E1 : Qlt_bool w a = false) by (apply Qlt_bool_false_iff; lra).
    assert (E2 : Qlt_bool w b = true) by (apply Qlt_bool_iff; assumption).
    assert (E3 : Qeq_bool a w = false).
    { apply Qeq_bool_false_iff. intro. lra. }
    rewrite E1, E2, E3. reflexivity.
  - inversion Hpre as [|? ? Hc Hpre']; subst. simpl in Hc.
    assert (E : Qlt_bool w c = false) by (apply Qlt_bool_false_iff; lra).
    rewrite E. apply IH; assumption.
Qed.

(** The same for a list of points given whole: [(x0, y0) :: rest] has the
    neighbours [(a, ea)] and [(b, eb)] somewhere. *)
Lemma interp_between_neighbours (x0 y0 : Q) (rest pre : list (Q * Q))
      (a ea b eb : Q) (post : list (Q * Q)) (right w : Q) :
  (x0, y0) :: rest = pre ++ (a, ea) :: (b, eb) :: post ->
  Forall (fun c => fst c <= w) pre -> a < w -> w < b ->
  ~ w < x0
  /\ interp_from w x0 y0 rest right = (eb - ea) / (b - a) * (w - a) + ea.
Proof.
  intros E Hpre Ha Hb. destruct pre as [|[c yc] pre]; simpl in E.
  - injection E as -> -> ->. split; [lra|].
    simpl.
    assert (E2 : Qlt_bool w b = true) by (apply Qlt_bool_iff; assumption).
    assert (E3 : Qeq_bool a w = false).
    { apply Qeq_bool_false_iff. intro. lra. }
    rewrite E2, E3. reflexivity.
  - injection E as -> -> ->.
    inversion Hpre as [|? ? Hc Hpre']; subst. simpl in Hc.
    split; [lra|]. apply interp_from_between; assumption.
Qed.

(** What [np.interp] reads between two samples lies between their values. *)
Lemma interp_from_bounds (lo hi right w : Q) (rest : list (Q * Q)) :
  forall x0 y0 : Q,
    x0 <= w -> lo <= y0 -> y0 <= hi ->
    Forall (fun c => lo <= snd c /\ snd c <= hi) rest ->
    lo <= right -> right <= hi ->
    lo <= interp_from w x0 y0 rest right
    /\ interp_from w x0 y0 rest right <= hi.
Proof.
  induction rest as [|[x1 y1] rest IH];
    intros x0 y0 Hx0 Hlo Hhi Hrest Hrl Hrh; simpl.
  - destruct (Qlt_bool x0 w); split; assumption.
  - inversion Hrest as [|? ? [Hy1l Hy1h] Hrest']; subst. simpl in *.
    destruct (Qlt_bool w x1) eqn:E1.
    + apply Qlt_bool_iff in E1.
      destruct (Qeq_bool x0 w); [split; assumption|].
      assert (Hd : 0 < x1 - x0) by lra.
      set (t := (w - x0) / (x1 - x0)).
      assert (Ht0 : 0 <= t).
      { unfold t. apply Qle_shift_div_l; [assumption|]. lra. }
      assert (Ht1 : t <= 1).
      { unfold t. apply Qle_shift_div_r; [assumption|]. lra. }
      assert (Ev : (y1 - y0) / (x1 - x0) * (w - x0) + y0
                   == (1 - t) * y0 + t * y1).
      { unfold t. field. intro. lra. }
      rewrite Ev.
      assert (H1 : 0 <= (1 - t) * (y0 - lo))
        by (apply Qmult_le_0_compat; lra).
      assert (H2 : 0 <= t * (y1 - lo)) by (apply Qmult_le_0_compat; lra).
      assert (H3 : 0 <= (1 - t) * (hi - y0))
        by (apply Qmult_le_0_compat; lra).
      assert (H4 : 0 <= t * (hi - y1)) by (apply Qmult_le_0_compat; lra).
      split.
      * setoid_replace ((1 - t) * y0 + t * y1)
          with (lo + ((1 - t) * (y0 - lo) + t * (y1 - lo))) by ring.
        lra.
      * setoid_replace ((1 - t) * y0 + t * y1)
          with (hi - ((1 - t) * (hi - y0) + t * (hi - y1))) by ring.
        lra.
    + apply Qlt_bool_false_iff in E1. apply IH; assumption.
Qed.

(** ** Ascending frames *)

Lemma ascending_around (l1 : list Q) (x : Q) (l2 : list Q) :
  ascending (l1 ++ x :: l2) ->
  Forall (fun y => y < x) l1 /\ Forall (fun y => x < y) l2.
Proof.
  unfold ascending. induction l1 as [|a l1 IH]; simpl; intro H.
  - inversion H; subst. split; [constructor|assumption].
  - inversion H as [|? ? Hs Hf]; subst.
    destruct (IH Hs) as [H1 H2]. split; [|assumption].
    constructor; [|assumption].
    apply Forall_app in Hf. destruct Hf as [_ Hf]. inversion Hf; assumption.
Qed.

Lemma ascending_last_greatest (tail : Pd.frame) :
  forall c0 : Q * Q,
    ascending (map fst (c0 :: tail)) ->
    forall c, In c (c0 :: tail) -> fst c <= fst (last tail c0).
Proof.
  induction tail as [|c1 tail IH]; intros c0 Hs c Hc.
  - destruct Hc as [<-|[]]. simpl. lra.
  - rewrite last_cons.
    unfold ascending in Hs. simpl in Hs.
    inversion Hs as [|? ? Hs' Hf]; subst.
    destruct Hc as [<-|Hc].
    + inversion Hf as [|? ? H01 _]; subst.
      specialize (IH c1 Hs' c1 (or_introl eq_refl)). lra.
    + apply IH; assumption.
Qed.

Lemma Forall2_last {A B : Type} (R : A -> B -> Prop) (l : list A)
      (l' : list B) :
  Forall2 R l l' -> forall d d', R d d' -> R (last l d) (last l' d').
Proof.
  induction 1 as [|a b l l' Hab _ IH]; intros d d' Hd; [assumption|].
  rewrite !last_cons. apply IH. assumption.
Qed.

Lemma Forall2_Forall_left {A B : Type} (R : A -> B -> Prop) (P : A -> Prop)
      (l : list A) (l' : list B) :
  Forall2 R l l' -> (forall a b, In b l' -> R a b -> P a) -> Forall P l.
Proof.
  induction 1 as [|a b l l' Hab _ IH]; intro H; constructor.
  - apply (H a b); [left; reflexivity|assumption].
  - apply IH. intros a' b' Hb'. apply H. right. assumption.
Qed.

(** ** pandas: looking up a label *)

Lemma loc_none (k : Q) (f : Pd.frame) :
  Forall (fun c => ~ fst c == k) f -> Pd.loc k f = None.
Proof.
  induction 1 as [|[j v] f Hj _ IH]; simpl; [reflexivity|].
  simpl in Hj. apply Qeq_bool_false_iff in Hj. rewrite Hj. exact IH.
Qed.

Lemma loc_some_key (k : Q) (f : Pd.frame) (v : Q) :
  Pd.loc k f = Some v -> exists j, In (j, v) f /\ j == k.
Proof.
  induction f as [|[j u] f IH]; simpl; [discriminate|].
  destruct (Qeq_bool j k) eqn:E.
  - intro H. injection H as ->. apply Qeq_bool_iff in E.
    exists j. split; [left; reflexivity|assumption].
  - intro H. destruct (IH H) as [j' [Hin Heq]].
    exists j'. split; [right; assumption|assumption].
Qed.

Lemma loc_combine (ws vs : list Q) :
  ascending ws ->
  forall (i : nat) (w p : Q),
    nth_error ws i = Some w -> nth_error vs i = Some p ->
    Pd.loc w (combine ws vs) = Some p.
Proof.
  unfold ascending. intro Hs. revert vs.
  induction Hs as [|k ws Hs IH Hf]; intros vs i w p Hw Hp.
  - destruct i; discriminate.
  - destruct vs as [|v vs]; [destruct i; discriminate|].
    destruct i as [|i]; simpl in *.
    + injection Hw as ->. injection Hp as ->.
      rewrite Qeq_bool_refl. reflexivity.
    + assert (Hkw : k < w).
      { rewrite Forall_forall in Hf. apply Hf.
        eapply nth_error_In; eassumption. }
      assert (E : Qeq_bool k w = false).
      { apply Qeq_bool_false_iff. intro. lra. }
      rewrite E. apply (IH vs i); assumption.
Qed.

Lemma ascending_keys_above (c e : Q) (ec : Pd.frame) :
  ascending (map fst ((c, e) :: ec)) ->
  ascending (map fst ec) /\ forall c', In c' ec -> c < fst c'.
Proof.
  unfold ascending. simpl. intro H. inversion H as [|? ? Hs Hf]; subst.
  split; [assumption|].
  intros c' Hin. rewrite Forall_forall in Hf. apply Hf.
  apply in_map. assumption.
Qed.

Lemma loc_in_ascending (ec : Pd.frame) :
  ascending (map fst ec) ->
  forall a e w : Q, In (a, e) ec -> a == w -> Pd.loc w ec = Some e.
Proof.
  induction ec as [|[c v] ec IH]; intros Hs a e w Hin Haw; [contradiction|].
  destruct (ascending_keys_above c v ec Hs) as [Hs' Habove].
  simpl. destruct Hin as [Hin|Hin].
  - injection Hin as -> ->.
    apply Qeq_bool_iff in Haw. rewrite Haw. reflexivity.
  - assert (E : Qeq_bool c w = false).
    { apply Qeq_bool_false_iff. intro Hcw.
      pose proof (Habove _ Hin) as H. simpl in H. lra. }
    rewrite E. apply (IH Hs' a); assumption.
Qed.

Lemma has_true (idx : list Q) (k : Q) :
  Pd.has idx k = true <-> exists j, In j idx /\ j == k.
Proof.
  unfold Pd.has. rewrite existsb_exists.
  split; intros [j [Hin H]]; exists j; (split; [assumption|]);
    apply Qeq_bool_iff; assumption.
Qed.

Lemma has_false (idx : list Q) (k : Q) :
  Pd.has idx k = false <-> Forall (fun j => ~ j == k) idx.
Proof.
  unfold Pd.has. induction idx as [|j idx IH]; simpl.
  - split; [constructor|reflexivity].
  - rewrite orb_false_iff, IH, Qeq_bool_false_iff. split.
    + intros [H1 H2]. constructor; assumption.
    + intro H. inversion H. split; assumption.
Qed.

(** ** pandas: the aligned index *)

Lemma ascending_distinct (l : list Q) : ascending l -> distinct l.
Proof.
  unfold ascending, distinct. induction 1 as [|a l Hs IH Hf]; constructor.
  - assumption.
  - eapply Forall_impl; [|exact Hf]. simpl. intros x Hx Heq. lra.
Qed.

Lemma distinct_filter (f : Q -> bool) (l : list Q) :
  distinct l -> distinct (filter f l).
Proof.
  unfold distinct. induction 1 as [|a l Hs IH Hf]; simpl; [constructor|].
  destruct (f a); [|assumption].
  constructor; [assumption|].
  rewrite Forall_forall in *. intros x Hx. apply Hf.
  apply filter_In in Hx. tauto.
Qed.

Lemma distinct_app (a b : list Q) :
  distinct a -> distinct b ->
  (forall x y, In x a -> In y b -> ~ x == y) ->
  distinct (a ++ b).
Proof.
  unfold distinct. intros Ha Hb Hab.
  induction Ha as [|x a Hs IH Hf]; simpl; [assumption|].
  constructor.
  - apply IH. intros x' y Hx' Hy. apply Hab; [right|]; assumption.
  - apply Forall_app. split; [assumption|].
    apply Forall_forall. intros y Hy. apply Hab; [left; reflexivity|assumption].
Qed.

Lemma union_distinct (a b : list Q) :
  distinct a -> distinct b -> distinct (Pd.union a b).
Proof.
  intros Ha Hb. unfold Pd.union.
  apply distinct_app; [assumption|apply distinct_filter; assumption|].
  intros x y Hx Hy. apply filter_In in Hy. destruct Hy as [_ Hy].
  apply negb_true_iff in Hy. apply has_false in Hy.
  rewrite Forall_forall in Hy. apply Hy. assumption.
Qed.

Lemma union_has_right (a b : list Q) (k : Q) :
  In k b -> exists k', In k' (Pd.union a b) /\ k' == k.
Proof.
  intro H. unfold Pd.union.
  destruct (Pd.has a k) eqn:E.
  - apply has_true in E. destruct E as [j [Hj Hjk]].
    exists j. split; [apply in_or_app; left|]; assumption.
  - exists k. split; [|reflexivity].
    apply in_or_app. right. apply filter_In. split; [assumption|].
    rewrite E. reflexivity.
Qed.

(** ** pandas: the valid entries of the reindexed efficiency column *)

Lemma valid_points_in (xs : list Q) :
  forall (ys : list (option Q)) (x y : Q),
    In (x, y) (Pd.valid_points xs ys) -> In x xs.
Proof.
  induction xs as [|k xs IH]; intros ys x y H.
  - destruct ys; contradiction.
  - destruct ys as [|[v|] ys]; simpl in H.
    + contradiction.
    + destruct H as [H|H].
      * injection H as -> _. left. reflexivity.
      * right. eapply IH. eassumption.
    + right. eapply IH. eassumption.
Qed.

Lemma valid_points_map_in (g : Q -> option Q) (idx : list Q) (k e : Q) :
  In (k, e) (Pd.valid_points idx (map g idx)) <-> In k idx /\ g k = Some e.
Proof.
  induction idx as [|j idx IH]; simpl.
  - tauto.
  - destruct (g j) as [v|] eqn:E; simpl; rewrite IH; split.
    + intros [H|[H1 H2]].
      * injection H as -> ->. split; [left; reflexivity|assumption].
      * split; [right|]; assumption.
    + intros [[->|H1] H2].
      * left. congruence.
      * right. split; assumption.
    + intros [H1 H2]. split; [right|]; assumption.
    + intros [[->|H1] H2]; [congruence|]. split; assumption.
Qed.

Lemma valid_points_distinct (g : Q -> option Q) (idx : list Q) :
  distinct idx -> distinct (map fst (Pd.valid_points idx (map g idx))).
Proof.
  unfold distinct. induction 1 as [|k idx Hs IH Hf]; simpl; [constructor|].
  destruct (g k) as [v|]; [|assumption].
  simpl. constructor; [assumption|].
  rewrite Forall_forall in *. intros x Hx. apply Hf.
  apply in_map_iff in Hx. destruct Hx as [[x' y] [<- Hin]].
  eapply valid_points_in. eassumption.
Qed.

Lemma insert_point_in (p q : Q * Q) (pts : list (Q * Q)) :
  In q (Pd.insert_point p pts) <-> q = p \/ In q pts.
Proof.
  induction pts as [|r pts IH]; simpl.
  - split; intros [H|H]; auto.
  - destruct (Qle_bool (fst p) (fst r)); simpl.
    + split; intros [H|H]; auto.
    + rewrite IH. split; intros [H|[H|H]]; auto.
Qed.

Lemma sort_points_in (q : Q * Q) (pts : list (Q * Q)) :
  In q (Pd.sort_points pts) <-> In q pts.
Proof.
  unfold Pd.sort_points. induction pts as [|p pts IH]; simpl; [tauto|].
  rewrite insert_point_in, IH. split; intros [H|H]; auto.
Qed.

Lemma insert_point_ascending (p : Q * Q) (pts : list (Q * Q)) :
  ascending (map fst pts) -> Forall (fun q => ~ fst p == fst q) pts ->
  ascending (map fst (Pd.insert_point p pts)).
Proof.
  unfold ascending. induction pts as [|r pts IH]; simpl; intros Hs Hd.
  - repeat constructor.
  - inversion Hs as [|? ? Hs' Hf]; subst.
    inversion Hd as [|? ? Hpr Hd']; subst.
    destruct (Qle_bool (fst p) (fst r)) eqn:E; simpl.
    + apply Qle_bool_iff in E.
      assert (Hlt : fst p < fst r).
      { destruct (Qlt_le_dec (fst p) (fst r)) as [|Hge]; [assumption|].
        exfalso. apply Hpr. lra. }
      constructor; [constructor; assumption|].
      constructor; [assumption|].
      eapply Forall_impl; [|exact Hf]. simpl. intros x Hx. lra.
    + assert (Hlt : fst r < fst p).
      { destruct (Qlt_le_dec (fst r) (fst p)) as [|Hge]; [assumption|].
        apply Qle_bool_iff in Hge. congruence. }
      constructor; [apply IH; assumption|].
      apply Forall_forall. intros x Hx.
      apply in_map_iff in Hx. destruct Hx as [q [<- Hq]].
      apply (proj1 (insert_point_in _ _ _)) in Hq.
      destruct Hq as [->|Hq]; [assumption|].
      rewrite Forall_forall in Hf. apply Hf. apply in_map. assumption.
Qed.

Lemma sort_points_ascending (pts : list (Q * Q)) :
  distinct (map fst pts) -> ascending (map fst (Pd.sort_points pts)).
Proof.
  unfold distinct, Pd.sort_points.
  induction pts as [|p pts IH]; simpl; intro H; [constructor|].
  inversion H as [|? ? Hs Hf]; subst.
  apply insert_point_ascending; [apply IH; assumption|].
  apply Forall_forall. intros q Hq.
  apply (proj1 (sort_points_in q pts)) in Hq.
  rewrite Forall_forall in Hf. apply Hf. apply in_map. assumption.
Qed.

(** Two frames with ascending wind speeds and the same rows are the same
    frame. *)
Lemma ascending_rows_unique (l1 : list (Q * Q)) :
  forall l2 : list (Q * Q),
    ascending (map fst l1) -> ascending (map fst l2) ->
    (forall p, In p l1 ->
               exists c, In c l2 /\ fst p == fst c /\ snd p = snd c) ->
    (forall c, In c l2 ->
               exists p, In p l1 /\ fst p == fst c /\ snd p = snd c) ->
    Forall2 (fun v c => fst v == fst c /\ snd v = snd c) l1 l2.
Proof.
  induction l1 as [|p l1 IH]; intros l2 H1 H2 H12 H21.
  - destruct l2 as [|c l2]; [constructor|].
    destruct (H21 c (or_introl eq_refl)) as [p [[] _]].
  - destruct l2 as [|c l2].
    { destruct (H12 p (or_introl eq_refl)) as [c [[] _]]. }
    unfold ascending in H1, H2. simpl in H1, H2.
    inversion H1 as [|? ? H1' Hp]; subst.
    inversion H2 as [|? ? H2' Hc]; subst.
    rewrite Forall_forall in Hp, Hc.
    assert (Hpc : fst p == fst c /\ snd p = snd c).
    { destruct (H12 p (or_introl eq_refl)) as [c' [[<-|Hc'] Hpc']];
        [assumption|].
      destruct (H21 c (or_introl eq_refl)) as [p' [[<-|Hp'] Hpc]];
        [assumption|].
      exfalso.
      pose proof (Hc (fst c') (in_map fst _ _ Hc')).
      pose proof (Hp (fst p') (in_map fst _ _ Hp')).
      destruct Hpc' as [? _]. destruct Hpc as [? _]. lra. }
    constructor; [assumption|].
    apply IH; try assumption.
    + intros p1 Hp1. destruct (H12 p1 (or_intror Hp1)) as [c1 [[<-|Hc1] R]].
      * exfalso. pose proof (Hp (fst p1) (in_map fst _ _ Hp1)).
        destruct Hpc as [? _]. destruct R as [? _]. lra.
      * exists c1. split; assumption.
    + intros c1 Hc1. destruct (H21 c1 (or_intror Hc1)) as [p1 [[<-|Hp1] R]].
      * exfalso. pose proof (Hc (fst c1) (in_map fst _ _ Hc1)).
        destruct Hpc as [? _]. destruct R as [? _]. lra.
      * exists p1. split; assumption.
Qed.

(** The valid entries of the efficiency column aligned with an ascending
    power curve, put in increasing wind speed, are the rows of the
    efficiency frame. *)
Lemma aligned_valid_points (ws : list Q) (ec : Pd.frame) :
  ascending ws -> ascending (map fst ec) ->
  Forall2 (fun v c => fst v == fst c /\ snd v = snd c)
          (Pd.sort_points
             (Pd.valid_points (Pd.union ws (map fst ec))
                (map (fun k => Pd.loc k ec) (Pd.union ws (map fst ec)))))
          ec.
Proof.
  intros Hws Hec. apply ascending_rows_unique.
  - apply sort_points_ascending. apply valid_points_distinct.
    apply union_distinct; apply ascending_distinct; assumption.
  - assumption.
  - intros [k e] Hin. apply (proj1 (sort_points_in _ _)) in Hin.
    apply (proj1 (valid_points_map_in _ _ _ _)) in Hin.
    destruct Hin as [_ Hloc].
    destruct (loc_some_key k ec e Hloc) as [j [Hj Hjk]].
    exists (j, e). split; [assumption|]. split; [symmetry; assumption|].
    reflexivity.
  - intros [c e] Hin.
    destruct (union_has_right ws (map fst ec) c) as [k [Hk Hkc]].
    { apply (in_map fst) in Hin. assumption. }
    exists (k, e). split; [|split; [assumption|reflexivity]].
    apply sort_points_in. apply valid_points_map_in.
    split; [assumption|].
    apply (loc_in_ascending ec Hec c e k); [assumption|].
    symmetry. assumption.
Qed.

Lemma aligned_valid_points_cons (ws : list Q) (xf ef : Q)
      (ec_tail : Pd.frame) :
  ascending ws -> ascending (map fst ((xf, ef) :: ec_tail)) ->
  exists x0 rest,
    Pd.sort_points
      (Pd.valid_points (Pd.union ws (map fst ((xf, ef) :: ec_tail)))
         (map (fun k => Pd.loc k ((xf, ef) :: ec_tail))
              (Pd.union ws (map fst ((xf, ef) :: ec_tail)))))
    = (x0, ef) :: rest
    /\ x0 == xf
    /\ Forall2 (fun v c => fst v == fst c /\ snd v = snd c) rest ec_tail.
Proof.
  intros Hws Hec.
  pose proof (aligned_valid_points ws _ Hws Hec) as HV.
  remember (Pd.sort_points
              (Pd.valid_points (Pd.union ws (map fst ((xf, ef) :: ec_tail)))
                 (map (fun k => Pd.loc k ((xf, ef) :: ec_tail))
                      (Pd.union ws (map fst ((xf, ef) :: ec_tail)))))) as V.
  clear HeqV.
  inversion HV as [|[x0 y0] c0 rest l' [Hx0 Hy0] Hrest]; subst.
  simpl in Hx0, Hy0. subst y0.
  exists x0, rest. split; [reflexivity|]. split; assumption.
Qed.

(** ** pandas: interpolation and the product of the columns *)

Lemma fill_length (x0 y0 : Q) (rest : list (Q * Q)) (g : Q -> option Q)
      (xs : list Q) :
  forall seen : bool,
    length (Pd.fill x0 y0 rest seen xs (map g xs)) = length xs.
Proof.
  induction xs as [|x xs IH]; intro seen; simpl; [reflexivity|].
  destruct (g x); simpl; rewrite IH; reflexivity.
Qed.

Lemma fill_app (x0 y0 : Q) (rest : list (Q * Q)) (g : Q -> option Q)
      (a b : list Q) :
  forall seen : bool,
  exists seen' : bool,
    Pd.fill x0 y0 rest seen (a ++ b) (map g (a ++ b)) =
    Pd.fill x0 y0 rest seen a (map g a)
    ++ Pd.fill x0 y0 rest seen' b (map g b).
Proof.
  induction a as [|x a IH]; intro seen; simpl.
  - exists seen. reflexivity.
  - destruct (g x).
    + destruct (IH true) as [seen' E]. exists seen'. rewrite E. reflexivity.
    + destruct (IH seen) as [seen' E]. exists seen'. rewrite E. reflexivity.
Qed.

Lemma combine_app {A B : Type} (a1 a2 : list A) (b1 b2 : list B) :
  length a1 = length b1 ->
  combine (a1 ++ a2) (b1 ++ b2) = combine a1 b1 ++ combine a2 b2.
Proof.
  revert b1. induction a1 as [|x a1 IH]; intros [|y b1] H; try discriminate.
  - reflexivity.
  - simpl. f_equal. apply IH. simpl in H. lia.
Qed.

Lemma dropna_app (a b : Pd.column) :
  Pd.dropna (a ++ b) = Pd.dropna a ++ Pd.dropna b.
Proof.
  induction a as [|[k [v|]] a IH]; simpl; [reflexivity| |assumption].
  rewrite IH. reflexivity.
Qed.

(** The labels that only the efficiency frame has: no power, no row. *)
Lemma reduced_rows_without_power (P : Q -> option Q) (extra : list Q) :
  Forall (fun k => P k = None) extra ->
  forall F : list (option Q),
    Pd.dropna (Pd.mul (map (fun k => (k, P k)) extra) (combine extra F)) = [].
Proof.
  unfold Pd.mul. induction 1 as [|k extra Hk _ IH]; intros [|e F]; simpl;
    try reflexivity.
  rewrite Hk. apply IH.
Qed.

(** The labels of the power curve: a row from the first valid efficiency
    on. *)
Lemma reduced_rows_of_power_curve (x0 y0 : Q) (rest : list (Q * Q))
      (P : Q -> option Q) (ec : Pd.frame) (ws vs : list Q) :
  Forall2 (fun w p => P w = Some p) ws vs ->
  forall seen : bool,
    Pd.dropna
      (Pd.mul (map (fun k => (k, P k)) ws)
         (combine ws
            (Pd.fill x0 y0 rest seen ws (map (fun k => Pd.loc k ec) ws))))
    = map (fun r =>
             (fst r, snd r * filled x0 y0 rest (fst r) (Pd.loc (fst r) ec)))
          (if seen then combine ws vs
           else from_first_given ec (combine ws vs)).
Proof.
  unfold Pd.mul.
  induction 1 as [|w p ws vs Hp _ IH]; intro seen.
  - destruct seen; reflexivity.
  - simpl. destruct (Pd.loc w ec) as [e|] eqn:E.
    + simpl. rewrite Hp. simpl. rewrite (IH true).
      destruct seen; simpl; rewrite E; reflexivity.
    + destruct seen; simpl; rewrite Hp; simpl.
      * rewrite (IH true), E. reflexivity.
      * rewrite (IH false). reflexivity.
Qed.

Lemma Forall2_of_nth {A B : Type} (R : A -> B -> Prop) (l : list A) :
  forall l' : list B,
    length l = length l' ->
    (forall i a b,
        nth_error l i = Some a -> nth_error l' i = Some b -> R a b) ->
    Forall2 R l l'.
Proof.
  induction l as [|a l IH]; intros [|b l'] Hlen H; try discriminate.
  - constructor.
  - constructor.
    + apply (H 0%nat); reflexivity.
    + apply IH; [simpl in Hlen; lia|].
      intros i a' b' Ha' Hb'. apply (H (S i)); assumption.
Qed.

(** The curve that the wind-efficiency-curve branch returns: the rows of
    the power curve from the first wind speed on that the efficiency frame
    has, each power multiplied by the efficiency applied there. *)
Lemma efficiency_curve_rows (ws vs : list Q) (ec : Pd.frame) (x0 y0 : Q)
      (rest : list (Q * Q)) :
  ascending ws -> length vs = length ws ->
  Pd.sort_points
    (Pd.valid_points (Pd.union ws (map fst ec))
       (map (fun k => Pd.loc k ec) (Pd.union ws (map fst ec)))) =
  (x0, y0) :: rest ->
  wake_losses_to_power_curve ws vs "wind_efficiency_curve" (DataFrame ec) =
  Ok (map (fun r =>
             (fst r, snd r * filled x0 y0 rest (fst r) (Pd.loc (fst r) ec)))
          (from_first_given ec (combine ws vs))).
Proof.
  intros Hs Hlen Hvalid.
  unfold wake_losses_to_power_curve. simpl String.eqb. cbv iota.
  rewrite Hlen, Nat.ltb_irrefl.
  unfold Pd.concat_axis1.
  rewrite (map_fst_combine ws vs) by (symmetry; assumption).
  unfold Pd.first_column, Pd.second_column. rewrite !map_map. simpl.
  unfold Pd.interpolate, Pd.inds. rewrite !map_map. simpl. rewrite map_id.
  rewrite Hvalid. f_equal.
  unfold Pd.union.
  set (extra := filter (fun k => negb (Pd.has ws k)) (map fst ec)).
  destruct (fill_app x0 y0 rest (fun k => Pd.loc k ec) ws extra false)
    as [seen' ->].
  rewrite map_app, combine_app
    by (rewrite fill_length; reflexivity).
  unfold Pd.mul. rewrite combine_app
    by (rewrite length_map, length_combine, fill_length, Nat.min_id;
        reflexivity).
  rewrite map_app, dropna_app.
  fold (Pd.mul (map (fun k => (k, Pd.loc k (combine ws vs))) extra)
          (combine extra
             (Pd.fill x0 y0 rest seen' extra
                (map (fun k => Pd.loc k ec) extra)))).
  rewrite reduced_rows_without_power.
  - rewrite app_nil_r.
    apply (reduced_rows_of_power_curve x0 y0 rest
             (fun k => Pd.loc k (combine ws vs)) ec ws vs).
    apply Forall2_of_nth; [symmetry; assumption|].
    intros i w p Hw Hp. apply (loc_combine ws vs Hs i); assumption.
  - apply Forall_forall. intros k Hk. unfold extra in Hk.
    apply filter_In in Hk. destruct Hk as [_ Hk].
    apply negb_true_iff in Hk. apply has_false in Hk.
    apply loc_none. apply Forall_forall. intros [j v] Hj. simpl.
    rewrite Forall_forall in Hk. apply Hk.
    apply in_combine_l in Hj. assumption.
Qed.

(** ** The rows from the first given efficiency on *)

Lemma from_first_given_suffix (ec : Pd.frame) (rows : list (Q * Q)) :
  exists pre, rows = pre ++ from_first_given ec rows
              /\ Forall (fun r => Pd.loc (fst r) ec = None) pre.
Proof.
  induction rows as [|[w p] rows [pre [E Hpre]]]; simpl.
  - exists []. split; [reflexivity|constructor].
  - destruct (Pd.loc w ec) eqn:El.
    + exists []. split; [reflexivity|constructor].
    + exists ((w, p) :: pre). split.
      * simpl. rewrite <- E. reflexivity.
      * constructor; assumption.
Qed.

Lemma from_first_given_keeps (ec : Pd.frame) (rows : list (Q * Q)) :
  forall (i j : nat) (r r0 : Q * Q) (e0 : Q),
    nth_error rows j = Some r0 -> Pd.loc (fst r0) ec = Some e0 ->
    (j <= i)%nat -> nth_error rows i = Some r ->
    In r (from_first_given ec rows).
Proof.
  induction rows as [|[w p] rows IH]; intros i j r r0 e0 Hj H0 Hji Hi.
  - destruct i; discriminate.
  - simpl. destruct (Pd.loc w ec) eqn:El.
    + eapply nth_error_In. eassumption.
    + destruct j as [|j].
      * simpl in Hj. injection Hj as <-. simpl in H0. congruence.
      * destruct i as [|i]; [lia|].
        simpl in Hj, Hi. apply (IH i j r r0 e0); try assumption. lia.
Qed.

(** A row that is kept comes at or after a row whose wind speed the
    efficiency frame has. *)
Lemma from_first_given_after (ec : Pd.frame) (rows : list (Q * Q)) :
  ascending (map fst rows) ->
  forall r, In r (from_first_given ec rows) ->
            exists r0 e0, In r0 rows /\ fst r0 <= fst r
                          /\ Pd.loc (fst r0) ec = Some e0.
Proof.
  unfold ascending.
  induction rows as [|[w p] rows IH]; simpl; intros Hs r Hr; [contradiction|].
  inversion Hs as [|? ? Hs' Hf]; subst.
  destruct (Pd.loc w ec) as [e0|] eqn:El.
  - exists (w, p), e0. split; [left; reflexivity|]. split; [|assumption].
    destruct Hr as [<-|Hr]; simpl; [lra|].
    rewrite Forall_forall in Hf.
    pose proof (Hf (fst r) (in_map fst _ _ Hr)). lra.
  - destruct (IH Hs' r Hr) as [r0 [e0 [H0 [Hle Hl]]]].
    exists r0, e0. split; [right; assumption|]. split; assumption.
Qed.

Lemma nth_error_combine {A B : Type} (l : list A) :
  forall (m : list B) (i : nat) (a : A) (b : B),
    nth_error l i = Some a -> nth_error m i = Some b ->
    nth_error (combine l m) i = Some (a, b).
Proof.
  induction l as [|x l IH]; intros [|y m] i a b Ha Hb;
    try (destruct i; discriminate).
  destruct i as [|i]; simpl in *.
  - injection Ha as ->. injection Hb as ->. reflexivity.
  - apply IH; assumption.
Qed.

Lemma ascending_app_r (a b : list Q) : ascending (a ++ b) -> ascending b.
Proof.
  unfold ascending. induction a as [|x a IH]; simpl; intro H; [assumption|].
  inversion H; subst. apply IH. assumption.
Qed.

(** What the wind-efficiency-curve branch returns for an ascending power
    curve: which rows are kept, what a kept row is made of, and the shape
    of the curve. *)
Lemma efficiency_curve_outcome (ws vs : list Q) (ec : Pd.frame) (x0 y0 : Q)
      (rest : list (Q * Q)) :
  ascending ws -> length vs = length ws ->
  Pd.sort_points
    (Pd.valid_points (Pd.union ws (map fst ec))
       (map (fun k => Pd.loc k ec) (Pd.union ws (map fst ec)))) =
  (x0, y0) :: rest ->
  exists curve,
    wake_losses_to_power_curve ws vs "wind_efficiency_curve" (DataFrame ec)
    = Ok curve
    /\ (forall (i j : nat) (w p w0 e0 : Q),
           nth_error ws i = Some w -> nth_error vs i = Some p ->
           nth_error ws j = Some w0 -> (j <= i)%nat ->
           Pd.loc w0 ec = Some e0 ->
           In (w, p * filled x0 y0 rest w (Pd.loc w ec)) curve)
    /\ (forall w y,
           In (w, y) curve ->
           exists p w0 e0,
             In (w, p) (combine ws vs)
             /\ y = p * filled x0 y0 rest w (Pd.loc w ec)
             /\ In w0 ws /\ w0 <= w /\ Pd.loc w0 ec = Some e0)
    /\ ascending (map fst curve)
    /\ incl (map fst curve) ws
    /\ (length curve <= length ws)%nat.
Proof.
  intros Hws Hlen Hvalid.
  eexists. split; [apply (efficiency_curve_rows ws vs ec x0 y0 rest);
                   assumption|].
  assert (Hkeys : map fst (combine ws vs) = ws)
    by (apply map_fst_combine; symmetry; assumption).
  destruct (from_first_given_suffix ec (combine ws vs)) as [pre [Epre _]].
  assert (Ews : ws = map fst pre
                     ++ map fst (from_first_given ec (combine ws vs))).
  { rewrite <- map_app, <- Epre. symmetry. assumption. }
  assert (Hfst : forall l : list (Q * Q),
             map fst
               (map (fun r =>
                       (fst r,
                        snd r * filled x0 y0 rest (fst r)
                                  (Pd.loc (fst r) ec))) l)
             = map fst l).
  { intro l. rewrite map_map. apply map_ext. reflexivity. }
  split; [|split; [|split; [|split]]].
  - intros i j w p w0 e0 Hw Hp Hw0 Hji Hl.
    assert (Hj : exists p0, nth_error vs j = Some p0).
    { destruct (nth_error vs j) eqn:E; [eauto|].
      apply nth_error_None in E.
      assert (j < length ws)%nat by (apply nth_error_Some; congruence).
      lia. }
    destruct Hj as [p0 Hp0].
    apply (in_map (fun r =>
                     (fst r,
                      snd r * filled x0 y0 rest (fst r) (Pd.loc (fst r) ec)))
             _ (w, p)).
    apply (from_first_given_keeps ec (combine ws vs) i j (w, p) (w0, p0) e0).
    + apply nth_error_combine; assumption.
    + assumption.
    + assumption.
    + apply nth_error_combine; assumption.
  - intros w y Hin. apply in_map_iff in Hin.
    destruct Hin as [[w' p] [E Hin]]. simpl in E. injection E as -> <-.
    destruct (from_first_given_after ec (combine ws vs)) with (r := (w, p))
      as [[w0 p0] [e0 [H0 [Hle Hl]]]].
    + rewrite Hkeys. assumption.
    + assumption.
    + exists p, w0, e0. simpl in Hle, Hl.
      split; [rewrite Epre; apply in_or_app; right; assumption|].
      split; [reflexivity|].
      split; [apply in_combine_l in H0; assumption|].
      split; assumption.
  - rewrite Hfst.
    apply (ascending_app_r (map fst pre)). rewrite <- Ews. assumption.
  - rewrite Hfst. intros w Hw.
    rewrite Ews. apply in_or_app. right. assumption.
  - rewrite length_map.
    rewrite <- (length_map fst (from_first_given ec (combine ws vs))).
    rewrite Ews at 2. rewrite length_app. lia.
Qed.

(** ** The claims about [wake_losses_to_power_curve] *)

(** C7.  With the method 'constant_efficiency' and a float [e], a power
    curve (as many power values as wind speeds) gives a curve of the same
    length with the same wind speeds, whose i-th power value is the i-th
    input value times [e]; and wind speeds 3, 4 with values 100, 200 and
    [e] = 0.9 give the rows (3, 90), (4, 180). *)
Theorem constant_efficiency_scales :
  (forall (ws vs : list Q) (e : Q),
      length ws = length vs ->
      exists curve,
        wake_losses_to_power_curve ws vs "constant_efficiency" (PyFloat e)
        = Ok curve
        /\ length curve = length ws
        /\ map fst curve = ws
        /\ map snd curve = map (fun p => p * e) vs
        /\ forall (i : nat) (w p : Q),
            nth_error ws i = Some w -> nth_error vs i = Some p ->
            nth_error curve i = Some (w, p * e))
  /\ exists curve,
      wake_losses_to_power_curve [3; 4] [100; 200] "constant_efficiency"
        (PyFloat (9 # 10)) = Ok curve
      /\ curve_eq curve [(3, 90); (4, 180)].
Proof.
  split.
  - intros ws vs e Hlen.
    exists (combine ws (map (fun p => p * e) vs)).
    assert (Hlen' : length ws = length (map (fun p => p * e) vs))
      by (rewrite length_map; assumption).
    split; [reflexivity|].
    split; [rewrite length_combine, <- Hlen', Nat.min_id; reflexivity|].
    split; [apply map_fst_combine; assumption|].
    split; [apply map_snd_combine; assumption|].
    clear Hlen Hlen'. revert vs.
    induction ws as [|k ws IH]; intros vs i w p Hw Hp.
    + destruct i; discriminate.
    + destruct vs as [|v vs]; [destruct i; discriminate|].
      destruct i as [|i]; simpl in *.
      * injection Hw as ->. injection Hp as ->. reflexivity.
      * apply IH; assumption.
  - eexists. split; [reflexivity|].
    repeat constructor; reflexivity.
Qed.

Lemma constant_efficiency_scales_witness :
  exists curve,
    wake_losses_to_power_curve [3; 4; 5] [100; 200; 300] "constant_efficiency"
      (PyFloat (1 # 2)) = Ok curve
    /\ nth_error curve 1 = Some (4, 200 * (1 # 2)).
Proof.
  destruct (proj1 constant_efficiency_scales [3; 4; 5] [100; 200; 300] (1 # 2)
              eq_refl) as [curve [Hrun [_ [_ [_ Hnth]]]]].
  exists curve. split; [exact Hrun|].
  apply (Hnth 1%nat 4 200); reflexivity.
Defined.

(** C6.  With the method 'wind_efficiency_curve' a dictionary passes the
    type check of lines 174-178 and then has no [set_index]: the call
    raises [AttributeError] whatever the power curve and the dictionary.
    [TypeError] is raised by this branch only for a value that is
    neither a dictionary nor a frame. *)
Theorem dict_efficiency_raises_attribute_error
        (ws vs : list Q) (items : list (string * list Q)) :
  wake_losses_to_power_curve ws vs "wind_efficiency_curve" (Dict items)
  = Raise (AttributeError "dict" "set_index")
  /\ forall (efficiency : py_value) (msg : string),
      wake_losses_to_power_curve ws vs "wind_efficiency_curve" efficiency
      = Raise (TypeError msg) ->
      (forall d, efficiency <> Dict d)
      /\ (forall rows, efficiency <> DataFrame rows).
Proof.
  split; [reflexivity|].
  intros efficiency msg H.
  destruct efficiency; try (split; intros ? ?; discriminate); exfalso;
    unfold wake_losses_to_power_curve in H; simpl String.eqb in H;
    cbv iota in H.
  destruct (length ws <? length vs)%nat; discriminate.
Qed.

(** C2, as the code has it.  With the method 'wind_efficiency_curve', a
    power curve with ascending wind speeds and an efficiency frame with
    ascending wind speeds from [xf] to [xl]: a row of the power curve is
    dropped when no wind speed of the power curve up to its own is a wind
    speed of the efficiency frame, so every row below [xf] is dropped
    (the leading gap), and every row when the two have no wind speed in
    common; a row of the power curve above [xl] is returned, its power
    multiplied by the last efficiency [el] (the trailing gap is filled,
    not dropped), as soon as the two have a wind speed in common. *)
Theorem leading_gap_dropped_trailing_gap_filled
        (ws vs : list Q) (xf ef : Q) (ec_tail : Pd.frame) (xl el : Q) :
  ascending ws -> length vs = length ws ->
  ascending (map fst ((xf, ef) :: ec_tail)) ->
  last ec_tail (xf, ef) = (xl, el) ->
  exists curve,
    wake_losses_to_power_curve ws vs "wind_efficiency_curve"
      (DataFrame ((xf, ef) :: ec_tail)) = Ok curve
    /\ (forall w y,
           (forall w0 c, In w0 ws -> w0 <= w ->
                         In c ((xf, ef) :: ec_tail) -> ~ fst c == w0) ->
           ~ In (w, y) curve)
    /\ (forall w y, w < xf -> ~ In (w, y) curve)
    /\ ((forall w0 c, In w0 ws -> In c ((xf, ef) :: ec_tail) ->
                      ~ fst c == w0) ->
        curve = [])
    /\ (forall (i : nat) (w p w0 : Q) (c : Q * Q),
           nth_error ws i = Some w -> nth_error vs i = Some p -> xl < w ->
           In w0 ws -> In c ((xf, ef) :: ec_tail) -> fst c == w0 ->
           exists y, In (w, y) curve /\ y == p * el).
Proof.
  intros Hws Hlen Hec Hlast.
  destruct (aligned_valid_points_cons ws xf ef ec_tail Hws Hec)
    as [x0 [rest [EV [Hx0 Hrest]]]].
  assert (Hmin : forall c, In c ((xf, ef) :: ec_tail) -> xf <= fst c).
  { destruct (ascending_keys_above xf ef ec_tail Hec) as [_ Habove].
    intros c [<-|Hc]; [simpl; lra|].
    pose proof (Habove c Hc). lra. }
  assert (Hmax : forall c, In c ((xf, ef) :: ec_tail) -> fst c <= xl).
  { intros c Hc.
    pose proof (ascending_last_greatest ec_tail (xf, ef) Hec c Hc) as H.
    rewrite Hlast in H. exact H. }
  assert (Hxf : xf <= xl) by (apply (Hmax (xf, ef)); left; reflexivity).
  assert (Hel : snd (last rest (x0, ef)) = el).
  { assert (Hl : fst (last rest (x0, ef)) == fst (last ec_tail (xf, ef))
                 /\ snd (last rest (x0, ef)) = snd (last ec_tail (xf, ef))).
    { apply (Forall2_last _ _ _ Hrest). split; [assumption|reflexivity]. }
    destruct Hl as [_ ->]. rewrite Hlast. reflexivity. }
  assert (Hrest_le : forall w, xl < w -> Forall (fun c => fst c < w) rest).
  { intros w Hw. apply (Forall2_Forall_left _ _ _ _ Hrest).
    intros v c Hc [Hvc _].
    pose proof (Hmax c (or_intror Hc)). lra. }
  remember ((xf, ef) :: ec_tail) as ec eqn:Eec.
  destruct (efficiency_curve_outcome ws vs ec x0 ef rest Hws Hlen EV)
    as [curve [Hrun [Hkept [Horigin _]]]].
  assert (Hdropped : forall w y,
             (forall w0 c, In w0 ws -> w0 <= w -> In c ec -> ~ fst c == w0) ->
             ~ In (w, y) curve).
  { intros w y Hnone Hin.
    destruct (Horigin w y Hin) as [p [w0 [e0 [_ [_ [Hw0 [Hle Hl]]]]]]].
    destruct (loc_some_key w0 ec e0 Hl) as [j [Hj Hjw]].
    apply (Hnone w0 (j, e0) Hw0 Hle Hj). simpl. assumption. }
  exists curve. split; [exact Hrun|].
  split; [exact Hdropped|]. split; [|split].
  - intros w y Hw. apply Hdropped. intros w0 c Hw0 Hle Hc Heq.
    pose proof (Hmin c Hc). lra.
  - intro Hnone. destruct curve as [|[w y] curve]; [reflexivity|].
    exfalso. apply (Hdropped w y); [|left; reflexivity].
    intros w0 c Hw0 _ Hc. apply Hnone; assumption.
  - intros i w p w0 c Hw Hp Hxl Hw0 Hc Hcw0.
    destruct (In_nth_error ws w0 Hw0) as [j Hj].
    assert (Hji : (j <= i)%nat).
    { destruct (Nat.le_gt_cases j i) as [|Hgt]; [assumption|].
      exfalso.
      pose proof (ascending_nth ws Hws i j w w0 Hgt Hw Hj).
      pose proof (Hmax c Hc). lra. }
    destruct c as [c0 e0]. simpl in Hcw0.
    pose proof (loc_in_ascending ec Hec c0 e0 w0 Hc Hcw0) as Hloc.
    exists (p * el). split; [|reflexivity].
    pose proof (Hkept i j w p w0 e0 Hw Hp Hj Hji Hloc) as Hin.
    rewrite (loc_none w ec) in Hin.
    + unfold filled, Np.interp_nonempty in Hin.
      assert (E : Qlt_bool w x0 = false) by (apply Qlt_bool_false_iff; lra).
      rewrite E, interp_from_beyond, Hel in Hin;
        [assumption|lra|apply Hrest_le; assumption].
    + apply Forall_forall. intros c' Hc' Heq.
      pose proof (Hmax c' Hc'). lra.
Qed.

Lemma leading_gap_dropped_trailing_gap_filled_witness :
  exists curve,
    wake_losses_to_power_curve [3; 4; 5; 6] [100; 200; 300; 400]
      "wind_efficiency_curve" (DataFrame [(4, 1 # 2); (5, 1)]) = Ok curve
    /\ (forall w y, w < 4 -> ~ In (w, y) curve)
    /\ exists y, In (6, y) curve /\ y == 400 * 1.
Proof.
  destruct (leading_gap_dropped_trailing_gap_filled [3; 4; 5; 6]
              [100; 200; 300; 400] 4 (1 # 2) [(5, 1)] 5 1)
    as [curve [Hrun [_ [Hlead [_ Htrail]]]]].
  - unfold ascending. repeat constructor.
  - reflexivity.
  - unfold ascending. repeat constructor.
  - reflexivity.
  - exists curve. split; [exact Hrun|]. split; [exact Hlead|].
    apply (Htrail 3%nat 6 400 4 (4, 1 # 2)).
    + reflexivity.
    + reflexivity.
    + reflexivity.
    + right. left. reflexivity.
    + left. reflexivity.
    + reflexivity.
Defined.

(** C2 as stated fails: the efficiency frame ends at wind speed 5, and the
    row of the power curve at wind speed 6 is returned, with its power
    unchanged by the last efficiency 1. *)
Lemma trailing_gap_not_dropped :
  wake_losses_to_power_curve [3; 4; 5; 6] [100; 200; 300; 400]
    "wind_efficiency_curve" (DataFrame [(4, 1 # 2); (5, 1)])
  = Ok [(4, 200 # 2); (5, 300); (6, 400)]
  /\ In (6, 400) [(4, 200 # 2); (5, 300); (6, 400)]
  /\ 5 < 6.
Proof.
  split; [reflexivity|]. split; [right; right; left; reflexivity|reflexivity].
Qed.

(** The power curve 3, 4, 5 has no wind speed of the efficiency frame 1, 2:
    every row comes before a valid efficiency in the aligned column, and
    the curve returned is empty. *)
Lemma no_common_wind_speed_example :
  wake_losses_to_power_curve [3; 4; 5] [100; 200; 300]
    "wind_efficiency_curve" (DataFrame [(1, 1 # 4); (2, 1 # 2)])
  = Ok [].
Proof.
  reflexivity.
Qed.

(** C1, as the code has it.  With the method 'wind_efficiency_curve', a
    row of the power curve whose wind speed [w] lies strictly between two
    neighbouring wind speeds [a] and [b] of the efficiency frame, and
    which comes after a wind speed [w0] that the power curve and the
    efficiency frame both have, is returned with its power multiplied by
    the efficiency on the straight line through [(a, ea)] and [(b, eb)]:
    the weight is the wind-speed distance [(w - a) / (b - a)]. *)
Theorem gap_interpolated_by_wind_speed
        (ws vs : list Q) (before : Pd.frame) (a ea b eb : Q)
        (after : Pd.frame) (i : nat) (w p : Q) (j : nat) (w0 : Q)
        (c : Q * Q) :
  ascending ws -> length vs = length ws ->
  ascending (map fst (before ++ (a, ea) :: (b, eb) :: after)) ->
  nth_error ws i = Some w -> nth_error vs i = Some p ->
  a < w -> w < b ->
  nth_error ws j = Some w0 -> (j <= i)%nat ->
  In c (before ++ (a, ea) :: (b, eb) :: after) -> fst c == w0 ->
  exists curve,
    wake_losses_to_power_curve ws vs "wind_efficiency_curve"
      (DataFrame (before ++ (a, ea) :: (b, eb) :: after)) = Ok curve
    /\ exists y, In (w, y) curve
                 /\ y == p * ((eb - ea) / (b - a) * (w - a) + ea).
Proof.
  intros Hws Hlen Hec Hw Hp Haw Hwb Hw0 Hji Hc Hcw0.
  pose proof (aligned_valid_points ws _ Hws Hec) as HV.
  assert (Hkeys : Forall (fun c => fst c < a) before
                  /\ Forall (fun c => b < fst c) after /\ a < b).
  { rewrite map_app in Hec. simpl in Hec.
    destruct (ascending_around _ _ _ Hec) as [Hbelow Hafter].
    inversion Hafter as [|? ? Hab _]; subst.
    assert (Hec' : ascending ((map fst before ++ [a]) ++ b :: map fst after)).
    { rewrite <- app_assoc. exact Hec. }
    destruct (ascending_around _ _ _ Hec') as [_ Hafter'].
    split; [|split; [|assumption]].
    - apply Forall_forall. intros c' Hc'. rewrite Forall_forall in Hbelow.
      apply Hbelow. apply in_map. assumption.
    - apply Forall_forall. intros c' Hc'. rewrite Forall_forall in Hafter'.
      apply Hafter'. apply in_map. assumption. }
  destruct Hkeys as [Hbelow [Hafter Hab]].
  assert (Hnone : Forall (fun c => ~ fst c == w)
                         (before ++ (a, ea) :: (b, eb) :: after)).
  { apply Forall_app. split; [|repeat constructor; simpl].
    - eapply Forall_impl; [|exact Hbelow]. simpl. intros c' Hc' Heq. lra.
    - intro. lra.
    - intro. lra.
    - eapply Forall_impl; [|exact Hafter]. simpl. intros c' Hc' Heq. lra. }
  destruct c as [c0 e0]. simpl in Hcw0.
  pose proof (loc_in_ascending _ Hec c0 e0 w0 Hc Hcw0) as Hloc.
  remember (before ++ (a, ea) :: (b, eb) :: after) as ec eqn:Eec.
  remember (Pd.sort_points
              (Pd.valid_points (Pd.union ws (map fst ec))
                 (map (fun k => Pd.loc k ec) (Pd.union ws (map fst ec)))))
    as V eqn:EV.
  rewrite Eec in HV.
  apply Forall2_app_inv_r in HV.
  destruct HV as [pre [V2 [Hpre [HV2 EVapp]]]].
  inversion HV2 as [|[a' ea'] ca V3 la [Ha Hea] HV3]; subst ca la V2.
  inversion HV3 as [|[b' eb'] cb post lb [Hb Heb] Hpost]; subst cb lb V3.
  simpl in Ha, Hea, Hb, Heb. subst ea' eb'.
  assert (Hpre_le : Forall (fun c => fst c <= w) pre).
  { apply (Forall2_Forall_left _ _ _ _ Hpre).
    intros v c' Hc' [Hvc _]. rewrite Forall_forall in Hbelow.
    pose proof (Hbelow c' Hc'). lra. }
  destruct V as [|[x0 y0] rest].
  { destruct pre; discriminate EVapp. }
  destruct (interp_between_neighbours x0 y0 rest pre a' ea b' eb post
              (snd (last rest (x0, y0))) w EVapp Hpre_le)
    as [Hx0 Hinterp]; [lra|lra|].
  symmetry in EV.
  destruct (efficiency_curve_outcome ws vs ec x0 y0 rest Hws Hlen EV)
    as [curve [Hrun [Hkept _]]].
  exists curve. split; [exact Hrun|].
  exists (p * ((eb - ea) / (b' - a') * (w - a') + ea)). split.
  - pose proof (Hkept i j w p w0 e0 Hw Hp Hw0 Hji Hloc) as Hin.
    rewrite (loc_none w ec Hnone) in Hin.
    unfold filled, Np.interp_nonempty in Hin.
    assert (E : Qlt_bool w x0 = false).
    { apply Qlt_bool_false_iff.
      destruct (Qlt_le_dec w x0); [contradiction|assumption]. }
    rewrite E, Hinterp in Hin. assumption.
  - rewrite Ha, Hb. reflexivity.
Qed.

Lemma gap_interpolated_by_wind_speed_witness :
  exists curve,
    wake_losses_to_power_curve [3; 4; 5; 7] [100; 200; 300; 400]
      "wind_efficiency_curve"
      (DataFrame [(3, 1 # 2); (4, 7 # 10); (7, 1)]) = Ok curve
    /\ exists y, In (5, y) curve
                 /\ y == 300 * ((1 - (7 # 10)) / (7 - 4) * (5 - 4) + (7 # 10)).
Proof.
  apply (gap_interpolated_by_wind_speed [3; 4; 5; 7] [100; 200; 300; 400]
           [(3, 1 # 2)] 4 (7 # 10) 7 1 [] 2%nat 5 300 1%nat 4 (4, 7 # 10)).
  - unfold ascending. repeat constructor.
  - reflexivity.
  - unfold ascending. repeat constructor.
  - reflexivity.
  - reflexivity.
  - reflexivity.
  - reflexivity.
  - reflexivity.
  - lia.
  - right. left. reflexivity.
  - reflexivity.
Defined.

(** C1 as stated fails: with efficiencies 0.5, 0.7 and 1 at the wind speeds
    3, 4 and 7, the power 300 at wind speed 5 is returned as 240 (the
    efficiency 0.8, a third of the way from 4 to 7), where filling by rank
    gives 255 (the efficiency 0.85, the midpoint of 0.7 and 1). *)
Lemma rank_interpolation_differs :
  exists curve,
    wake_losses_to_power_curve [3; 4; 5; 7] [100; 200; 300; 400]
      "wind_efficiency_curve"
      (DataFrame [(3, 1 # 2); (4, 7 # 10); (7, 1)]) = Ok curve
    /\ curve_eq curve [(3, 50); (4, 140); (5, 240); (7, 400)]
    /\ curve_eq (reduced_power_by_rank [3; 4; 5; 7] [100; 200; 300; 400]
                   [(3, 1 # 2); (4, 7 # 10); (7, 1)])
                [(3, 50); (4, 140); (5, 255); (7, 400)]
    /\ ~ 240 == 255.
Proof.
  eexists. split; [reflexivity|].
  split; [|split].
  - repeat (first [apply Forall2_cons | apply Forall2_nil | split]);
      vm_compute; reflexivity.
  - repeat (first [apply Forall2_cons | apply Forall2_nil | split]);
      vm_compute; reflexivity.
  - discriminate.
Qed.

(** The worked example of the specification has evenly spaced wind speeds,
    where the two readings agree. *)
Lemma evenly_spaced_example :
  exists curve,
    wake_losses_to_power_curve [3; 4; 5] [100; 200; 300]
      "wind_efficiency_curve" (DataFrame [(3, 1 # 2); (5, 1)]) = Ok curve
    /\ curve_eq curve [(3, 50); (4, 150); (5, 300)]
    /\ curve_eq (reduced_power_by_rank [3; 4; 5] [100; 200; 300]
                   [(3, 1 # 2); (5, 1)]) curve.
Proof.
  eexists. split; [reflexivity|]. split.
  - repeat (first [apply Forall2_cons | apply Forall2_nil | split]);
      vm_compute; reflexivity.
  - repeat (first [apply Forall2_cons | apply Forall2_nil | split]);
      vm_compute; reflexivity.
Qed.

(** * Further properties of [smooth_power_curve] *)

(** ** What the loops return and raise *)

Lemma for_each_inv {A B : Type} (f : A -> result B) (l : list A) :
  forall bs, Py.for_each f l = Ok bs -> Forall2 (fun a b => f a = Ok b) l bs.
Proof.
  induction l as [|a l IH]; intros bs H; simpl in H.
  - injection H as <-. constructor.
  - destruct (f a) as [b|e] eqn:Ea; simpl in H; [|discriminate].
    destruct (Py.for_each f l) as [bs'|e] eqn:El; simpl in H; [|discriminate].
    injection H as <-. constructor; [assumption|]. apply IH. reflexivity.
Qed.

Lemma for_each_raise_inv {A B : Type} (f : A -> result B) (l : list A)
      (e : exn) :
  Py.for_each f l = Raise e -> exists a, In a l /\ f a = Raise e.
Proof.
  induction l as [|a l IH]; intro H; simpl in H; [discriminate|].
  destruct (f a) as [b|e'] eqn:Ea; simpl in H.
  - destruct (Py.for_each f l) as [bs'|e'] eqn:El; simpl in H; [discriminate|].
    injection H as ->. destruct (IH eq_refl) as [a' [Hin Ha']].
    exists a'. split; [right; assumption|assumption].
  - injection H as ->. exists a. split; [left; reflexivity|assumption].
Qed.

Lemma neg_index_raises_index_error {A : Type} (k : nat) (l : list A)
      (e : exn) :
  Py.neg_index k l = Raise e -> e = IndexError.
Proof.
  unfold Py.neg_index. destruct (length l <? k)%nat.
  - intro H. injection H as <-. reflexivity.
  - destruct (nth_error l (length l - k)); [discriminate|].
    intro H. injection H as <-. reflexivity.
Qed.

Lemma tail_step_raises_index_error (ws : list Q) (e : exn) :
  tail_step ws = Raise e -> e = IndexError.
Proof.
  unfold tail_step.
  destruct (Py.neg_index 5 ws) as [a|e5] eqn:E5; simpl.
  - destruct (Py.neg_index 6 ws) as [b|e6] eqn:E6; simpl; [discriminate|].
    intro H. injection H as <-.
    apply (neg_index_raises_index_error 6 ws). assumption.
  - intro H. injection H as <-.
    apply (neg_index_raises_index_error 5 ws). assumption.
Qed.

Lemma tail_step_short (ws : list Q) :
  (length ws < 6)%nat -> tail_step ws = Raise IndexError.
Proof.
  intro H. unfold tail_step.
  destruct (Py.neg_index 5 ws) as [a|e5] eqn:E5; simpl.
  - rewrite (neg_index_raise_short 6 ws H). reflexivity.
  - f_equal. apply (neg_index_raises_index_error 5 ws). assumption.
Qed.

Lemma extend_raises_index_error (fuel : nat) :
  forall (step : Q) (ws vs : list Q) (e : exn),
    extend_to_40 fuel step ws vs = Some (Raise e) -> e = IndexError.
Proof.
  induction fuel as [|fuel IH]; intros step ws vs e; simpl.
  - destruct (Py.neg_index 1 ws) as [final|e1] eqn:E1.
    + destruct (Qlt_bool final 40); discriminate.
    + intro H. injection H as <-.
      apply (neg_index_raises_index_error 1 ws). assumption.
  - destruct (Py.neg_index 1 ws) as [final|e1] eqn:E1.
    + destruct (Qlt_bool final 40); [|discriminate].
      destruct (Py.neg_index 1 vs) as [v|e2] eqn:E2.
      * apply IH.
      * intro H. injection H as <-.
        apply (neg_index_raises_index_error 1 vs). assumption.
    + intro H. injection H as <-.
      apply (neg_index_raises_index_error 1 ws). assumption.
Qed.

(** The loop adds as many power values as wind speeds, and only at the
    end. *)
Lemma extend_appends (fuel : nat) :
  forall (step : Q) (ws vs ws' vs' : list Q),
    extend_to_40 fuel step ws vs = Some (Ok (ws', vs')) ->
    exists added, ws' = ws ++ added
                  /\ vs' = vs ++ repeat 0 (length added).
Proof.
  induction fuel as [|fuel IH]; intros step ws vs ws' vs'; simpl.
  - destruct (Py.neg_index 1 ws) as [final|e1]; [|discriminate].
    destruct (Qlt_bool final 40); [discriminate|].
    intro H. injection H as <- <-. exists []. simpl.
    rewrite !app_nil_r. split; reflexivity.
  - destruct (Py.neg_index 1 ws) as [final|e1]; [|discriminate].
    destruct (Qlt_bool final 40).
    + destruct (Py.neg_index 1 vs) as [v|e2]; [|discriminate].
      intro H. destruct (IH _ _ _ _ _ H) as [added [-> ->]].
      exists ((final + step) :: added). simpl.
      rewrite <- !app_assoc. split; reflexivity.
    + intro H. injection H as <- <-. exists []. simpl.
      rewrite !app_nil_r. split; reflexivity.
Qed.

(** What one pass of the loop over the wind speeds can raise. *)
Lemma smoothed_value_at_raises
      (gaussian_distribution : Q -> Q -> Q -> npfloat)
      (ws vs : list Q) (bw : Q) (method : str) (mean : Q) (nsd : option Q)
      (v : Q) (e : exn) :
  ws <> [] ->
  smoothed_value_at gaussian_distribution ws vs bw method mean nsd v
  = Raise e ->
  (e = ZeroDivisionError /\ bw == 0)
  \/ (e = UnboundLocalError "normalized_standard_deviation" /\ nsd = None)
  \/ (e = ValueError "fp and xp are not of the same length."
      /\ length ws <> length vs).
Proof.
  intros Hne. unfold smoothed_value_at, Np.arange.
  destruct (Qeq_bool bw 0) eqn:Ebw; simpl.
  - intro H. injection H as <-. left.
    split; [reflexivity|apply Qeq_bool_iff; assumption].
  - destruct nsd as [nsd|]; simpl.
    + match goal with
      | |- context [Py.for_each ?f ?l] =>
          destruct (Py.for_each f l) as [terms|e'] eqn:Ef
      end; simpl; [discriminate|].
      intro H. injection H as ->.
      apply for_each_raise_inv in Ef. destruct Ef as [w [_ Hw]].
      unfold Np.interp in Hw.
      destruct (length ws =? length vs)%nat eqn:Elen; simpl in Hw.
      * exfalso. apply Nat.eqb_eq in Elen.
        destruct ws as [|x0 ws]; [contradiction|].
        destruct vs as [|y0 vs]; [discriminate|].
        simpl in Hw. discriminate.
      * injection Hw as <-. right. right.
        split; [reflexivity|apply Nat.eqb_neq; assumption].
    + intro H. injection H as <-. right. left. split; reflexivity.
Qed.

(** Once the loop over the tail is left with [added], the call returns one
    value for each wind speed. *)
Lemma smooth_returns (gaussian_distribution : Q -> Q -> Q -> npfloat)
      (ws vs : list Q) (bw : Q) (method : str) (mean : Q) (kw : kwargs)
      (nsd step : Q) (added : list Q) :
  select_normalized_standard_deviation method kw = Ok (Some nsd) ->
  tail_step ws = Ok step -> length vs = length ws -> ~ bw == 0 ->
  (forall fuel, (length added <= fuel)%nat ->
     extend_to_40 fuel step ws vs =
     Some (Ok (ws ++ added, vs ++ repeat 0 (length added)))) ->
  exists values,
    (forall fuel, (length added <= fuel)%nat ->
       smooth_power_curve gaussian_distribution fuel ws vs bw method mean kw
       = Some (Ok (combine (ws ++ added) values)))
    /\ Forall2
         (fun v y =>
            smoothed_value_at gaussian_distribution (ws ++ added)
              (vs ++ repeat 0 (length added)) bw method mean (Some nsd) v
            = Ok y)
         (ws ++ added) values.
Proof.
  intros Hsel Hstep Hlen Hbw Hrun.
  pose proof (tail_step_length ws step Hstep) as H6.
  destruct (for_each_ok
              (smoothed_value_at gaussian_distribution (ws ++ added)
                 (vs ++ repeat 0 (length added)) bw method mean (Some nsd))
              (fun v y =>
                 smoothed_value_at gaussian_distribution (ws ++ added)
                   (vs ++ repeat 0 (length added)) bw method mean (Some nsd) v
                 = Ok y)
              (ws ++ added)) as [values [Hvalues Hall]].
  { intros v _.
    destruct (smoothed_value_at_ok gaussian_distribution (ws ++ added)
                (vs ++ repeat 0 (length added)) bw method mean nsd v Hbw)
      as [y [Ey _]].
    - rewrite !length_app, repeat_length. lia.
    - destruct ws; [simpl in H6; lia|discriminate].
    - exists y. split; assumption. }
  exists values. split; [|assumption].
  intros fuel Hfuel.
  rewrite (smooth_after_extension gaussian_distribution fuel ws vs _ _ bw
             method mean kw (Some nsd) step Hsel Hstep (Hrun fuel Hfuel)).
  rewrite Hvalues. reflexivity.
Qed.

(** ** Exceptions *)

Lemma tail_step_of_six (ws : list Q) :
  (6 <= length ws)%nat -> exists step, tail_step ws = Ok step.
Proof.
  intro H. unfold tail_step.
  destruct (neg_index_ok 5 ws) as [a Ea]; [lia|].
  destruct (neg_index_ok 6 ws) as [b Eb]; [lia|].
  rewrite Ea, Eb. simpl. eauto.
Qed.

Lemma neg_index_1_raises {A : Type} (l : list A) (e : exn) :
  Py.neg_index 1 l = Raise e -> l = [].
Proof.
  intro H. destruct l as [|a l]; [reflexivity|].
  destruct (neg_index_ok 1 (a :: l)) as [b Hb]; [simpl; lia|].
  rewrite Hb in H. discriminate.
Qed.

Lemma extend_raises_on_empty (fuel : nat) :
  forall (step : Q) (ws vs : list Q) (e : exn),
    extend_to_40 fuel step ws vs = Some (Raise e) -> ws = [] \/ vs = [].
Proof.
  induction fuel as [|fuel IH]; intros step ws vs e; simpl.
  - destruct (Py.neg_index 1 ws) as [final|e1] eqn:E1.
    + destruct (Qlt_bool final 40); discriminate.
    + intros _. left. apply (neg_index_1_raises ws e1). assumption.
  - destruct (Py.neg_index 1 ws) as [final|e1] eqn:E1.
    + destruct (Qlt_bool final 40); [|discriminate].
      destruct (Py.neg_index 1 vs) as [v|e2] eqn:E2.
      * intro H. destruct (IH _ _ _ _ H) as [H0|H0];
          exfalso; apply (app_cons_not_nil _ _ _ (eq_sym H0)).
      * intros _. right. apply (neg_index_1_raises vs e2). assumption.
    + intros _. left. apply (neg_index_1_raises ws e1). assumption.
Qed.

(** Every exception that the call on two Series raises, with its cause. *)
Lemma series_exceptions (gaussian_distribution : Q -> Q -> Q -> npfloat)
      (fuel : nat) (ws vs : list Q) (bw : Q) (method : str) (mean : Q)
      (kw : kwargs) (e : exn) :
  smooth_power_curve gaussian_distribution fuel ws vs bw method mean kw
  = Some (Raise e) ->
  (select_normalized_standard_deviation method kw = Raise e
   /\ Py.str_eq method "turbulence_intensity" = true
   /\ Py.get "turbulence_intensity" kw = None)
  \/ (e = IndexError /\ ((length ws < 6)%nat \/ vs = []))
  \/ (e = ZeroDivisionError /\ bw == 0)
  \/ (e = UnboundLocalError "normalized_standard_deviation"
      /\ select_normalized_standard_deviation method kw = Ok None)
  \/ (e = ValueError "fp and xp are not of the same length."
      /\ length ws <> length vs).
Proof.
  unfold smooth_power_curve.
  destruct (select_normalized_standard_deviation method kw) as [nsd|e0]
    eqn:Esel.
  - destruct (tail_step ws) as [step|e1] eqn:Estep.
    + pose proof (tail_step_length ws step Estep) as H6.
      destruct (extend_to_40 fuel step ws vs) as [[[ws' vs']|e2]|] eqn:Eext.
      * destruct (extend_appends fuel step ws vs ws' vs' Eext)
          as [added [-> ->]].
        match goal with
        | |- context [Py.for_each ?f ?l] =>
            destruct (Py.for_each f l) as [values|e3] eqn:Ef
        end; simpl; [discriminate|].
        intro H. injection H as ->.
        apply for_each_raise_inv in Ef. destruct Ef as [v [_ Hv]].
        apply smoothed_value_at_raises in Hv.
        -- destruct Hv as [Hv|[[-> ->]|[-> Hv]]].
           ++ right. right. left. assumption.
           ++ right. right. right. left. split; reflexivity.
           ++ right. right. right. right. split; [reflexivity|].
              rewrite !length_app, repeat_length in Hv. lia.
        -- destruct ws; [simpl in H6; lia|discriminate].
      * intro H. injection H as ->. right. left.
        split; [apply (extend_raises_index_error fuel step ws vs);
                assumption|].
        right. destruct (extend_raises_on_empty fuel step ws vs e Eext)
          as [->|H0]; [simpl in H6; lia|assumption].
      * discriminate.
    + intro H. injection H as ->. right. left.
      split; [apply (tail_step_raises_index_error ws); assumption|].
      left. destruct (Nat.lt_ge_cases (length ws) 6) as [|H6]; [assumption|].
      destruct (tail_step_of_six ws H6) as [step Hstep]. congruence.
  - intro H. injection H as ->. left. split; [reflexivity|].
    unfold select_normalized_standard_deviation in Esel.
    destruct (Py.str_eq method "turbulence_intensity").
    + split; [reflexivity|].
      destruct (Py.get "turbulence_intensity" kw); [discriminate|reflexivity].
    + destruct (Py.str_eq method "Norgaard"); [discriminate|].
      destruct (Py.str_eq method "Staffell"); discriminate.
Qed.

(** The same on the sequences that the docstring admits. *)
Lemma array_like_exceptions
      (gaussian_distribution : Q -> Q -> Q -> npfloat)
      (fuel : nat) (ws vs : array_like) (bw : Q) (method : str) (mean : Q)
      (kw : kwargs) (e : exn) :
  smooth_power_curve_array_like gaussian_distribution fuel ws vs bw method
    mean kw = Some (Raise e) ->
  (select_normalized_standard_deviation method kw = Raise e
   /\ Py.str_eq method "turbulence_intensity" = true
   /\ Py.get "turbulence_intensity" kw = None)
  \/ (e = AttributeError "numpy.ndarray" "iloc"
      /\ ws = Ndarray (data ws))
  \/ (e = AttributeError "numpy.ndarray" "append"
      /\ ws = Series (data ws) /\ vs = Ndarray (data vs)
      /\ exists final, Py.neg_index 1 (data ws) = Ok final /\ final < 40)
  \/ (e = IndexError
      /\ ws = Series (data ws)
      /\ ((length (data ws) < 6)%nat \/ data vs = []))
  \/ (e = ZeroDivisionError /\ bw == 0)
  \/ (e = UnboundLocalError "normalized_standard_deviation"
      /\ select_normalized_standard_deviation method kw = Ok None)
  \/ (e = ValueError "fp and xp are not of the same length."
      /\ length (data ws) <> length (data vs)).
Proof.
  assert (Hselect : forall e0,
             select_normalized_standard_deviation method kw = Raise e0 ->
             Py.str_eq method "turbulence_intensity" = true
             /\ Py.get "turbulence_intensity" kw = None).
  { intros e0 Esel. unfold select_normalized_standard_deviation in Esel.
    destruct (Py.str_eq method "turbulence_intensity").
    - split; [reflexivity|].
      destruct (Py.get "turbulence_intensity" kw); [discriminate|reflexivity].
    - destruct (Py.str_eq method "Norgaard"); [discriminate|].
      destruct (Py.str_eq method "Staffell"); discriminate. }
  assert (Hseries : forall w v,
             smooth_power_curve gaussian_distribution fuel w v bw method mean
               kw = Some (Raise e) ->
             (select_normalized_standard_deviation method kw = Raise e
              /\ Py.str_eq method "turbulence_intensity" = true
              /\ Py.get "turbulence_intensity" kw = None)
             \/ (e = IndexError /\ ((length w < 6)%nat \/ v = []))
             \/ (e = ZeroDivisionError /\ bw == 0)
             \/ (e = UnboundLocalError "normalized_standard_deviation"
                 /\ select_normalized_standard_deviation method kw = Ok None)
             \/ (e = ValueError "fp and xp are not of the same length."
                 /\ length w <> length v)).
  { intros w v. apply series_exceptions. }
  assert (Hshape : forall w v,
             smooth_power_curve gaussian_distribution fuel w v bw method mean
               kw = Some (Raise e) ->
             (select_normalized_standard_deviation method kw = Raise e
              /\ Py.str_eq method "turbulence_intensity" = true
              /\ Py.get "turbulence_intensity" kw = None)
             \/ (e = IndexError /\ ((length w < 6)%nat \/ v = []))
             \/ (e = ZeroDivisionError /\ bw == 0)
             \/ (e = UnboundLocalError "normalized_standard_deviation"
                 /\ select_normalized_standard_deviation method kw = Ok None)
             \/ (e = ValueError "fp and xp are not of the same length."
                 /\ length w <> length v) ->
             forall a b : array_like,
               a = Series w -> data b = v ->
               (select_normalized_standard_deviation method kw = Raise e
                /\ Py.str_eq method "turbulence_intensity" = true
                /\ Py.get "turbulence_intensity" kw = None)
               \/ (e = AttributeError "numpy.ndarray" "iloc"
                   /\ a = Ndarray (data a))
               \/ (e = AttributeError "numpy.ndarray" "append"
                   /\ a = Series (data a) /\ b = Ndarray (data b)
                   /\ exists final, Py.neg_index 1 (data a) = Ok final
                                    /\ final < 40)
               \/ (e = IndexError
                   /\ a = Series (data a)
                   /\ ((length (data a) < 6)%nat \/ data b = []))
               \/ (e = ZeroDivisionError /\ bw == 0)
               \/ (e = UnboundLocalError "normalized_standard_deviation"
                   /\ select_normalized_standard_deviation method kw
                      = Ok None)
               \/ (e = ValueError "fp and xp are not of the same length."
                   /\ length (data a) <> length (data b))).
  { intros w v _ [H0|[[H1 H2]|[H0|[H0|H0]]]] a b -> <-; simpl.
    - left. assumption.
    - right. right. right. left. split; [assumption|].
      split; [reflexivity|assumption].
    - right. right. right. right. left. assumption.
    - right. right. right. right. right. left. assumption.
    - right. right. right. right. right. right. assumption. }
  destruct ws as [w|w], vs as [v|v]; unfold smooth_power_curve_array_like.
  - intro H. apply (Hshape w v H (Hseries w v H)); reflexivity.
  - destruct (select_normalized_standard_deviation method kw) as [nsd|e0]
      eqn:Esel.
    + destruct (tail_step w) as [step|e1] eqn:Estep.
      * pose proof (tail_step_length w step Estep) as H6.
        destruct (neg_index_ok 1 w) as [final Ef]; [lia|].
        destruct (Py.neg_index 1 w) as [final'|e2] eqn:Ef'; [|discriminate].
        injection Ef as ->.
        destruct (Qlt_bool final 40) eqn:E40.
        -- intro H. injection H as <-. right. right. left.
           split; [reflexivity|]. split; [reflexivity|].
           split; [reflexivity|].
           exists final. split; [exact Ef'|].
           apply Qlt_bool_iff. assumption.
        -- intro H. rewrite <- Esel in *.
           apply (Hshape w v H (Hseries w v H)); reflexivity.
      * intro H. injection H as ->. right. right. right. left.
        split; [apply (tail_step_raises_index_error w); assumption|].
        split; [reflexivity|]. left. simpl.
        destruct (Nat.lt_ge_cases (length w) 6) as [|H6]; [assumption|].
        destruct (tail_step_of_six w H6) as [step Hstep]. congruence.
    + intro H. injection H as ->. left.
      split; [reflexivity|]. apply (Hselect e). reflexivity.
  - destruct (select_normalized_standard_deviation method kw) as [nsd|e0]
      eqn:Esel; intro H; injection H as <-.
    + right. left. split; reflexivity.
    + left. split; [reflexivity|]. apply (Hselect e0). reflexivity.
  - destruct (select_normalized_standard_deviation method kw) as [nsd|e0]
      eqn:Esel; intro H; injection H as <-.
    + right. left. split; reflexivity.
    + left. split; [reflexivity|]. apply (Hselect e0). reflexivity.
Qed.

(** The causes of the exceptions of [smooth_power_curve], on the sequences
    that its docstring admits.  When the call raises the [ValueError] of
    lines 70-72, the method is 'turbulence_intensity' and the keyword is
    missing; [AttributeError]: the wind speeds are a numpy array (no
    [iloc], line 80), or the power values are one and the curve has to be
    extended (no [append], line 86); [IndexError]: there are fewer than
    six wind speeds, or no power value (lines 80-87); [ZeroDivisionError]:
    the block width is zero (line 91); [UnboundLocalError]: it is for the
    normalized standard deviation, which the selection of the method has
    not assigned (line 95); the [ValueError] of [np.interp]: wind speeds
    and power values differ in number (line 100). *)
Theorem smooth_exceptions (gaussian_distribution : Q -> Q -> Q -> npfloat)
        (fuel : nat) (ws vs : array_like) (bw : Q) (method : str) (mean : Q)
        (kw : kwargs) (e : exn) :
  smooth_power_curve_array_like gaussian_distribution fuel ws vs bw method
    mean kw = Some (Raise e) ->
  (e = ValueError
         "Turbulence intensity must be defined for using 'turbulence_intensity' as `standard_deviation_method`" ->
   Py.str_eq method "turbulence_intensity" = true
   /\ Py.get "turbulence_intensity" kw = None)
  /\ (forall type_name attr,
         e = AttributeError type_name attr ->
         type_name = "numpy.ndarray"%string
         /\ ((attr = "iloc"%string /\ ws = Ndarray (data ws))
             \/ (attr = "append"%string
                 /\ ws = Series (data ws) /\ vs = Ndarray (data vs)
                 /\ exists final,
                     Py.neg_index 1 (data ws) = Ok final /\ final < 40)))
  /\ (e = IndexError ->
      ws = Series (data ws)
      /\ ((length (data ws) < 6)%nat \/ data vs = []))
  /\ (e = ZeroDivisionError -> bw == 0)
  /\ (forall name,
         e = UnboundLocalError name ->
         name = "normalized_standard_deviation"%string
         /\ select_normalized_standard_deviation method kw = Ok None)
  /\ (e = ValueError "fp and xp are not of the same length." ->
      length (data ws) <> length (data vs)).
Proof.
  intro H.
  assert (Hsel : forall e0,
             select_normalized_standard_deviation method kw = Raise e0 ->
             e0 = ValueError
                    "Turbulence intensity must be defined for using 'turbulence_intensity' as `standard_deviation_method`").
  { intros e0. unfold select_normalized_standard_deviation.
    destruct (Py.str_eq method "turbulence_intensity").
    - destruct (Py.get "turbulence_intensity" kw); [discriminate|].
      intro E. injection E as <-. reflexivity.
    - destruct (Py.str_eq method "Norgaard"); [discriminate|].
      destruct (Py.str_eq method "Staffell"); discriminate. }
  destruct (array_like_exceptions gaussian_distribution fuel ws vs bw method
              mean kw e H)
    as [[H0 H1]|[[-> H1]|[[-> H1]|[[-> H1]|[[-> H1]|[[-> H1]|[-> H1]]]]]]].
  - rewrite (Hsel e H0).
    split; [intros _; exact H1|].
    split; [intros ? ? E; discriminate E|].
    split; [intro E; discriminate E|].
    split; [intro E; discriminate E|].
    split; [intros ? E; discriminate E|].
    intro E; discriminate E.
  - split; [intro E; discriminate E|].
    split; [|split; [intro E; discriminate E|
             split; [intro E; discriminate E|
             split; [intros ? E; discriminate E|intro E; discriminate E]]]].
    intros t a E. injection E as <- <-.
    split; [reflexivity|]. left. split; [reflexivity|exact H1].
  - split; [intro E; discriminate E|].
    split; [|split; [intro E; discriminate E|
             split; [intro E; discriminate E|
             split; [intros ? E; discriminate E|intro E; discriminate E]]]].
    intros t a E. injection E as <- <-.
    split; [reflexivity|]. right. split; [reflexivity|exact H1].
  - split; [intro E; discriminate E|].
    split; [intros ? ? E; discriminate E|].
    split; [intros _; exact H1|].
    split; [intro E; discriminate E|].
    split; [intros ? E; discriminate E|intro E; discriminate E].
  - split; [intro E; discriminate E|].
    split; [intros ? ? E; discriminate E|].
    split; [intro E; discriminate E|].
    split; [intros _; exact H1|].
    split; [intros ? E; discriminate E|intro E; discriminate E].
  - split; [intro E; discriminate E|].
    split; [intros ? ? E; discriminate E|].
    split; [intro E; discriminate E|].
    split; [intro E; discriminate E|].
    split; [|intro E; discriminate E].
    intros name E. injection E as <-. split; [reflexivity|exact H1].
  - split; [intro E; discriminate E|].
    split; [intros ? ? E; discriminate E|].
    split; [intro E; discriminate E|].
    split; [intro E; discriminate E|].
    split; [intros ? E; discriminate E|].
    intros _. exact H1.
Qed.

Lemma smooth_exceptions_witness :
  smooth_power_curve_array_like Tools.gaussian_distribution_approx 0
    (Series [0; 1; 2; 3; 4; 5]) (Ndarray [0; 10; 20; 30; 20; 0]) (1 # 2)
    (Py.literal "Staffell") 0 []
  = Some (Raise (AttributeError "numpy.ndarray" "append"))
  /\ exists final, Py.neg_index 1 [0; 1; 2; 3; 4; 5] = Ok final /\ final < 40.
Proof.
  assert (Hrun : smooth_power_curve_array_like
                   Tools.gaussian_distribution_approx 0
                   (Series [0; 1; 2; 3; 4; 5])
                   (Ndarray [0; 10; 20; 30; 20; 0]) (1 # 2)
                   (Py.literal "Staffell") 0 []
                 = Some (Raise (AttributeError "numpy.ndarray" "append")))
    by reflexivity.
  split; [exact Hrun|].
  destruct (smooth_exceptions Tools.gaussian_distribution_approx 0
              (Series [0; 1; 2; 3; 4; 5]) (Ndarray [0; 10; 20; 30; 20; 0])
              (1 # 2) (Py.literal "Staffell") 0 []
              (AttributeError "numpy.ndarray" "append") Hrun)
    as [_ [Hattr _]].
  destruct (Hattr "numpy.ndarray"%string "append"%string eq_refl)
    as [_ [[H _]|[_ [_ [_ H]]]]]; [discriminate H|exact H].
Defined.

(** A curve with fewer than six wind speeds: once the method is selected,
    line 80 raises [IndexError], whatever else is passed. *)
Theorem short_curve_raises_index_error
        (gaussian_distribution : Q -> Q -> Q -> npfloat)
        (fuel : nat) (ws vs : list Q) (bw : Q) (method : str) (mean : Q)
        (kw : kwargs) (nsd : option Q) :
  (length ws < 6)%nat ->
  select_normalized_standard_deviation method kw = Ok nsd ->
  smooth_power_curve gaussian_distribution fuel ws vs bw method mean kw
  = Some (Raise IndexError).
Proof.
  intros Hlen Hsel. unfold smooth_power_curve.
  rewrite Hsel, (tail_step_short ws Hlen). reflexivity.
Qed.

Lemma short_curve_raises_index_error_witness :
  smooth_power_curve Tools.gaussian_distribution_approx 0
    [0; 10; 20; 30; 40] [0; 1; 2; 1; 0] (1 # 2) (Py.literal "Staffell") 0 []
  = Some (Raise IndexError).
Proof.
  apply (short_curve_raises_index_error Tools.gaussian_distribution_approx 0
           [0; 10; 20; 30; 40] [0; 1; 2; 1; 0] (1 # 2)
           (Py.literal "Staffell") 0 [] (Some (2 # 10))).
  - simpl. lia.
  - reflexivity.
Defined.

(** ** Values *)

Lemma smoothed_value_at_not_nan
      (gaussian_distribution : Q -> Q -> Q -> npfloat)
      (ws vs : list Q) (bw : Q) (method : str) (mean : Q) (nsd : option Q)
      (v : Q) (y : npfloat) :
  smoothed_value_at gaussian_distribution ws vs bw method mean nsd v = Ok y ->
  isnan y = false.
Proof.
  unfold smoothed_value_at.
  destruct (Np.arange (- (15)) (15 + bw) bw) as [block|e]; simpl;
    [|discriminate].
  destruct nsd as [nsd|]; simpl; [|discriminate].
  match goal with
  | |- context [Py.for_each ?f ?l] =>
      destruct (Py.for_each f l) as [terms|e]
  end; simpl; [|discriminate].
  intro H. injection H as <-. apply nan_replaced.
Qed.

(** No power value that [smooth_power_curve] returns is not-a-number,
    whatever the curve, the configuration and the gaussian (lines
    106-109). *)
Theorem smoothed_powers_never_nan
        (gaussian_distribution : Q -> Q -> Q -> npfloat)
        (fuel : nat) (ws vs : list Q) (bw : Q) (method : str) (mean : Q)
        (kw : kwargs) (curve : list (Q * npfloat)) :
  smooth_power_curve gaussian_distribution fuel ws vs bw method mean kw
  = Some (Ok curve) ->
  Forall (fun row => isnan (snd row) = false) curve.
Proof.
  unfold smooth_power_curve.
  destruct (select_normalized_standard_deviation method kw) as [nsd|e0];
    [|discriminate].
  destruct (tail_step ws) as [step|e1]; [|discriminate].
  destruct (extend_to_40 fuel step ws vs) as [[[ws' vs']|e2]|];
    [|discriminate|discriminate].
  match goal with
  | |- context [Py.for_each ?f ?l] =>
      destruct (Py.for_each f l) as [values|e3] eqn:Ef
  end; simpl; [|discriminate].
  intro H. injection H as <-.
  apply for_each_inv in Ef. clear -Ef.
  induction Ef as [|v y l l' Hy _ IH]; simpl; constructor.
  - simpl. eapply smoothed_value_at_not_nan. eassumption.
  - assumption.
Qed.

Lemma smoothed_powers_never_nan_witness :
  exists curve,
    smooth_power_curve Tools.gaussian_distribution_approx 1
      [0; 8; 16; 24; 32; 39] [0; 100; 200; 300; 300; 0] 15
      (Py.literal "turbulence_intensity") 0
      [("turbulence_intensity"%string, 1 # 10)] = Some (Ok curve)
    /\ Forall (fun row => isnan (snd row) = false) curve.
Proof.
  eexists. split; [vm_compute; reflexivity|].
  apply (smoothed_powers_never_nan Tools.gaussian_distribution_approx 1
           [0; 8; 16; 24; 32; 39] [0; 100; 200; 300; 300; 0] 15
           (Py.literal "turbulence_intensity") 0
           [("turbulence_intensity"%string, 1 # 10)]).
  vm_compute. reflexivity.
Defined.

(** ** The extension *)

(** A curve whose final wind speed is 40 or more is not extended, whatever
    its tail step: the call needs no pass of the loop of lines 82-87 and
    returns exactly the wind speeds it was given. *)
Theorem curve_reaching_40_not_extended
        (gaussian_distribution : Q -> Q -> Q -> npfloat)
        (ws vs : list Q) (bw : Q) (method : str) (mean : Q) (kw : kwargs)
        (nsd final : Q) :
  (6 <= length ws)%nat -> length vs = length ws ->
  Py.neg_index 1 ws = Ok final -> 40 <= final ->
  ~ bw == 0 ->
  select_normalized_standard_deviation method kw = Ok (Some nsd) ->
  exists curve,
    (forall fuel,
        smooth_power_curve gaussian_distribution fuel ws vs bw method mean kw
        = Some (Ok curve))
    /\ map fst curve = ws.
Proof.
  intros H6 Hlen Hfinal H40 Hbw Hsel.
  destruct (tail_step_of_six ws H6) as [step Hstep].
  destruct (smooth_returns gaussian_distribution ws vs bw method mean kw nsd
              step [] Hsel Hstep Hlen Hbw) as [values [Hrun Hall]].
  { intros fuel _. simpl. rewrite !app_nil_r.
    apply extend_exit with final; assumption. }
  rewrite app_nil_r in *.
  exists (combine ws values). split.
  - intro fuel. apply Hrun. simpl. lia.
  - apply map_fst_combine. apply (Forall2_length Hall).
Qed.

Lemma curve_reaching_40_not_extended_witness :
  exists curve,
    (forall fuel,
        smooth_power_curve Tools.gaussian_distribution_approx fuel
          [0; 10; 20; 30; 40; 45] [0; 1; 2; 3; 2; 0] 15
          (Py.literal "Staffell") 0 [] = Some (Ok curve))
    /\ map fst curve = [0; 10; 20; 30; 40; 45].
Proof.
  apply (curve_reaching_40_not_extended Tools.gaussian_distribution_approx
           [0; 10; 20; 30; 40; 45] [0; 1; 2; 3; 2; 0] 15
           (Py.literal "Staffell") 0 [] (2 # 10) 45).
  - simpl. lia.
  - reflexivity.
  - reflexivity.
  - discriminate.
  - discriminate.
  - reflexivity.
Defined.

Lemma Qceiling_bounds (r : Q) :
  0 < r ->
  inject_Z (Z.of_nat (Z.to_nat (Qceiling r))) - 1 < r
  /\ r <= inject_Z (Z.of_nat (Z.to_nat (Qceiling r))).
Proof.
  intro Hr.
  pose proof (Qle_ceiling r) as Hup. pose proof (Qceiling_lt r) as Hlo.
  assert (Hc : (0 <= Qceiling r)%Z).
  { apply Z.lt_le_incl. rewrite Zlt_Qlt. change (inject_Z 0) with 0. lra. }
  rewrite Z2Nat.id by assumption.
  unfold Z.sub in Hlo. rewrite inject_Z_plus in Hlo.
  change (inject_Z (- (1))%Z) with (- (1)) in Hlo.
  split; lra.
Qed.

(** When no sum is rounded, [n] iterations leave the loop, [n] being the
    number of steps that the distance to 40 takes. *)
Lemma extend_with_exact_sums (add : Q -> Q -> Q) (step : Q) (n : nat) :
  0 < step ->
  forall (ws vs : list Q) (x v : Q),
    exact_sums add x step n = true ->
    (inject_Z (Z.of_nat n) - 1) * step < 40 - x ->
    40 - x <= inject_Z (Z.of_nat n) * step ->
    exists added,
      length added = n
      /\ (forall fuel, (n <= fuel)%nat ->
            extend_to_40_with add fuel step (ws ++ [x]) (vs ++ [v]) =
            Some (Ok ((ws ++ [x]) ++ added, (vs ++ [v]) ++ repeat 0 n)))
      /\ (forall fuel, (fuel < n)%nat ->
            extend_to_40_with add fuel step (ws ++ [x]) (vs ++ [v]) = None)
      /\ forall (i : nat) (y : Q),
          nth_error added i = Some y ->
          y == x + inject_Z (Z.of_nat (S i)) * step.
Proof.
  intro Hstep. induction n as [|n IH]; intros ws vs x v Hexact Hlo Hhi.
  - change (inject_Z (Z.of_nat 0)) with 0 in Hhi.
    exists []. simpl. rewrite !app_nil_r.
    split; [reflexivity|]. split; [|split].
    + intros fuel _. apply extend_with_exit with x;
        [apply neg_index_1_snoc|lra].
    + intros fuel Hf. lia.
    + intros i y Hi. destruct i; discriminate.
  - simpl in Hexact. apply andb_true_iff in Hexact.
    destruct Hexact as [Hsum Hexact]. apply Qeq_bool_iff in Hsum.
    rewrite Nat2Z.inj_succ in Hlo, Hhi. unfold Z.succ in Hlo, Hhi.
    rewrite inject_Z_plus in Hlo, Hhi.
    change (inject_Z 1) with 1 in Hlo, Hhi.
    assert (Hn : 0 <= inject_Z (Z.of_nat n) * step).
    { apply Qmult_le_0_compat; [|lra].
      change 0 with (inject_Z 0). rewrite <- Zle_Qle. lia. }
    assert (Hlt : x < 40) by lra.
    destruct (IH (ws ++ [x]) (vs ++ [v]) (add x step) 0 Hexact)
      as [added [Hlen [Hrun [Hshort Hnth]]]]; [lra|lra|].
    exists (add x step :: added).
    split; [simpl; rewrite Hlen; reflexivity|]. split; [|split].
    + intros fuel Hf. destruct fuel as [|fuel]; [lia|].
      rewrite extend_with_iterate by assumption.
      rewrite Hrun by lia. simpl.
      rewrite <- !app_assoc. reflexivity.
    + intros fuel Hf. destruct fuel as [|fuel].
      * apply extend_with_out_of_fuel with x;
          [apply neg_index_1_snoc|assumption].
      * rewrite extend_with_iterate by assumption. apply Hshort. lia.
    + intros i y Hi. destruct i as [|i]; simpl in Hi.
      * injection Hi as <-. change (inject_Z (Z.of_nat 1)) with 1. lra.
      * rewrite (Hnth i y Hi), Hsum.
        rewrite (Nat2Z.inj_succ (S i)). unfold Z.succ.
        rewrite inject_Z_plus. change (inject_Z 1) with 1. ring.
Qed.

(** When none of the float sums on the way is rounded (wind speeds in whole
    or half metres per second, say), the number of points that the
    extension appends is the distance from the final wind speed to 40 in
    steps, rounded up, and the i-th appended wind speed is the final one
    plus i steps. *)
Theorem extension_count (add : Q -> Q -> Q) (ws vs : list Q)
        (step final : Q) (n : nat) :
  0 < step ->
  Py.neg_index 1 ws = Ok final -> final < 40 ->
  length vs = length ws ->
  n = Z.to_nat (Qceiling ((40 - final) / step)) ->
  exact_sums add final step n = true ->
  exists added,
    length added = n
    /\ (forall fuel, (n <= fuel)%nat ->
          extend_to_40_with add fuel step ws vs =
          Some (Ok (ws ++ added, vs ++ repeat 0 n)))
    /\ (forall fuel, (fuel < n)%nat ->
          extend_to_40_with add fuel step ws vs = None)
    /\ forall (i : nat) (y : Q),
        nth_error added i = Some y ->
        y == final + inject_Z (Z.of_nat (S i)) * step.
Proof.
  intros Hstep Hfinal Hlt Hlen Hn Hexact.
  destruct (neg_index_1_inv ws final Hfinal) as [ws0 Ews].
  destruct (snoc_of_nonempty vs) as [vs0 [v Evs]].
  { destruct vs; [subst ws; rewrite length_app in Hlen; simpl in Hlen; lia|
                  discriminate]. }
  assert (Hr : 0 < (40 - final) / step).
  { apply Qlt_shift_div_l; [assumption|]. lra. }
  destruct (Qceiling_bounds _ Hr) as [Hlo Hhi]. rewrite <- Hn in Hlo, Hhi.
  assert (E : (40 - final) / step * step == 40 - final)
    by (field; lra).
  subst ws vs.
  apply (extend_with_exact_sums add step n Hstep ws0 vs0 final v Hexact).
  - rewrite <- E. apply Qmult_lt_compat_r; assumption.
  - rewrite <- E. apply Qmult_le_compat_r; [assumption|lra].
Qed.

Lemma extension_count_witness :
  exists added,
    length added = 3%nat
    /\ (forall fuel, (3 <= fuel)%nat ->
          extend_to_40_with Float64.add fuel 2 [25; 27; 29; 31; 33; 35]
            [0; 1; 2; 3; 2; 0] =
          Some (Ok ([25; 27; 29; 31; 33; 35] ++ added,
                    [0; 1; 2; 3; 2; 0] ++ repeat 0 3)))
    /\ forall (i : nat) (y : Q),
        nth_error added i = Some y ->
        y == 35 + inject_Z (Z.of_nat (S i)) * 2.
Proof.
  destruct (extension_count Float64.add [25; 27; 29; 31; 33; 35]
              [0; 1; 2; 3; 2; 0] 2 35 3)
    as [added [Hlen [Hrun [_ Hnth]]]].
  - reflexivity.
  - reflexivity.
  - reflexivity.
  - reflexivity.
  - vm_compute. reflexivity.
  - vm_compute. reflexivity.
  - exists added. split; [exact Hlen|]. split; [exact Hrun|exact Hnth].
Defined.

(** The floats 39.9 and 0.1: their sum is rounded to 40, and the loop
    appends one point where two steps of 0.1 are needed to pass 40 from
    39.9 with exact sums. *)
Lemma rounded_sum_example :
  Float64.add (Float64.round (399 # 10)) (Float64.round (1 # 10)) = 40
  /\ exact_sums Float64.add (Float64.round (399 # 10))
       (Float64.round (1 # 10)) 1 = false
  /\ Z.to_nat (Qceiling ((40 - Float64.round (399 # 10))
                         / Float64.round (1 # 10))) = 2%nat.
Proof.
  split; [|split]; vm_compute; reflexivity.
Qed.


(** ** The window of line 91 *)



(** ** Arguments outside their range *)





(** ** The comparison by identity of line 96 *)



(** * Further properties of [wake_losses_to_power_curve] *)

(** ** Exceptions *)



(** ** The wind efficiency curve: the rows returned *)

(** The frame's own efficiency where it has one: a wind speed that both
    curves have is returned with its power multiplied by the efficiency
    given for it, not by an interpolated one. *)
Theorem given_efficiency_applied_unchanged
        (ws vs : list Q) (ec : Pd.frame) (i : nat) (w p a e : Q) :
  ascending ws -> length vs = length ws -> ascending (map fst ec) ->
  nth_error ws i = Some w -> nth_error vs i = Some p ->
  In (a, e) ec -> a == w ->
  exists curve,
    wake_losses_to_power_curve ws vs "wind_efficiency_curve" (DataFrame ec)
    = Ok curve
    /\ In (w, p * e) curve.
Proof.
  intros Hws Hlen Hec Hw Hp Hin Haw.
  pose proof (aligned_valid_points ws ec Hws Hec) as HV.
  remember (Pd.sort_points
              (Pd.valid_points (Pd.union ws (map fst ec))
                 (map (fun k => Pd.loc k ec) (Pd.union ws (map fst ec)))))
    as V eqn:EV.
  destruct V as [|[x0 y0] rest].
  { inversion HV; subst. contradiction. }
  symmetry in EV.
  destruct (efficiency_curve_outcome ws vs ec x0 y0 rest Hws Hlen EV)
    as [curve [Hrun [Hkept _]]].
  exists curve. split; [exact Hrun|].
  pose proof (loc_in_ascending ec Hec a e w Hin Haw) as Hloc.
  pose proof (Hkept i i w p w e Hw Hp Hw (Nat.le_refl i) Hloc) as Hrow.
  rewrite Hloc in Hrow. exact Hrow.
Qed.

Lemma given_efficiency_applied_unchanged_witness :
  exists curve,
    wake_losses_to_power_curve [3; 4; 5; 7] [100; 200; 300; 400]
      "wind_efficiency_curve"
      (DataFrame [(3, 1 # 2); (4, 7 # 10); (7, 1)]) = Ok curve
    /\ In (4, 200 * (7 # 10)) curve.
Proof.
  apply (given_efficiency_applied_unchanged [3; 4; 5; 7]
           [100; 200; 300; 400] [(3, 1 # 2); (4, 7 # 10); (7, 1)]
           1%nat 4 200 4 (7 # 10)).
  - unfold ascending. repeat constructor.
  - reflexivity.
  - unfold ascending. repeat constructor.
  - reflexivity.
  - reflexivity.
  - right. left. reflexivity.
  - reflexivity.
Defined.

(** What a returned row is made of: a wind speed and power of the power
    curve and the efficiency applied there. *)
Lemma reduced_row_origin (ws vs : list Q) (ec : Pd.frame) :
  ascending ws -> length vs = length ws -> ascending (map fst ec) ->
  ec <> [] ->
  exists x0 y0 rest curve,
    Forall2 (fun v c => fst v == fst c /\ snd v = snd c) ((x0, y0) :: rest) ec
    /\ wake_losses_to_power_curve ws vs "wind_efficiency_curve"
         (DataFrame ec) = Ok curve
    /\ ascending (map fst curve)
    /\ incl (map fst curve) ws
    /\ (length curve <= length ws)%nat
    /\ forall w y,
        In (w, y) curve ->
        exists p, In (w, p) (combine ws vs)
                  /\ y = p * filled x0 y0 rest w (Pd.loc w ec).
Proof.
  intros Hws Hlen Hec Hne.
  pose proof (aligned_valid_points ws ec Hws Hec) as HV.
  remember (Pd.sort_points
              (Pd.valid_points (Pd.union ws (map fst ec))
                 (map (fun k => Pd.loc k ec) (Pd.union ws (map fst ec)))))
    as V eqn:EV.
  destruct V as [|[x0 y0] rest].
  { inversion HV; subst. contradiction. }
  symmetry in EV.
  destruct (efficiency_curve_outcome ws vs ec x0 y0 rest Hws Hlen EV)
    as [curve [Hrun [_ [Horigin [Hasc [Hincl Hlength]]]]]].
  exists x0, y0, rest, curve.
  split; [exact HV|]. split; [exact Hrun|]. split; [exact Hasc|].
  split; [exact Hincl|]. split; [exact Hlength|].
  intros w y Hin.
  destruct (Horigin w y Hin) as [p [_ [_ [Hp [Hy _]]]]].
  exists p. split; assumption.
Qed.

(** The returned curve is a power curve on wind speeds of the one given:
    its wind speeds ascend, each is a wind speed of the power curve (a
    wind speed that only the efficiency frame has is not returned), and it
    is not longer than the power curve. *)
Theorem reduced_curve_within_power_curve (ws vs : list Q) (ec : Pd.frame) :
  ascending ws -> length vs = length ws -> ascending (map fst ec) ->
  ec <> [] ->
  exists curve,
    wake_losses_to_power_curve ws vs "wind_efficiency_curve" (DataFrame ec)
    = Ok curve
    /\ ascending (map fst curve)
    /\ incl (map fst curve) ws
    /\ (length curve <= length ws)%nat.
Proof.
  intros Hws Hlen Hec Hne.
  destruct (reduced_row_origin ws vs ec Hws Hlen Hec Hne)
    as [x0 [y0 [rest [curve [_ [Hrun [Hasc [Hincl [Hlength _]]]]]]]]].
  exists curve. split; [exact Hrun|]. split; [exact Hasc|].
  split; [exact Hincl|exact Hlength].
Qed.

Lemma reduced_curve_within_power_curve_witness :
  exists curve,
    wake_losses_to_power_curve [3; 4; 5; 7] [100; 200; 300; 400]
      "wind_efficiency_curve" (DataFrame [(4, 7 # 10); (6, 1)]) = Ok curve
    /\ ascending (map fst curve)
    /\ incl (map fst curve) [3; 4; 5; 7]
    /\ (length curve <= length [3; 4; 5; 7])%nat.
Proof.
  apply (reduced_curve_within_power_curve [3; 4; 5; 7]
           [100; 200; 300; 400] [(4, 7 # 10); (6, 1)]).
  - unfold ascending. repeat constructor.
  - reflexivity.
  - unfold ascending. repeat constructor.
  - discriminate.
Defined.

Lemma Forall_last {A : Type} (P : A -> Prop) (d : A) (l : list A) :
  P d -> Forall P l -> P (last l d).
Proof.
  intros Hd Hl. revert d Hd. induction Hl as [|a l Ha _ IH]; intros d Hd.
  - exact Hd.
  - rewrite last_cons. apply IH. exact Ha.
Qed.

(** Every efficiency that is applied lies between the bounds of the
    efficiencies given: nothing is extrapolated beyond them.  With
    efficiencies between 0 and 1 and power values that are not negative,
    no returned power is negative or above the power it comes from. *)
Theorem applied_efficiency_within_bounds
        (ws vs : list Q) (ec : Pd.frame) (lo hi : Q) :
  ascending ws -> length vs = length ws -> ascending (map fst ec) ->
  ec <> [] ->
  Forall (fun c => lo <= snd c /\ snd c <= hi) ec ->
  exists curve,
    wake_losses_to_power_curve ws vs "wind_efficiency_curve" (DataFrame ec)
    = Ok curve
    /\ (forall w y,
           In (w, y) curve ->
           exists p e, In (w, p) (combine ws vs) /\ y = p * e
                       /\ lo <= e /\ e <= hi)
    /\ (0 <= lo -> hi <= 1 -> Forall (fun p => 0 <= p) vs ->
        forall w y,
          In (w, y) curve ->
          exists p, In (w, p) (combine ws vs) /\ 0 <= y /\ y <= p).
Proof.
  intros Hws Hlen Hec Hne Hbounds.
  destruct (reduced_row_origin ws vs ec Hws Hlen Hec Hne)
    as [x0 [y0 [rest [curve [HV [Hrun [_ [_ [_ Hrows]]]]]]]]].
  assert (HVb : Forall (fun c => lo <= snd c /\ snd c <= hi)
                       ((x0, y0) :: rest)).
  { apply (Forall2_Forall_left _ _ _ _ HV).
    intros v c Hc [_ Hvc]. rewrite Hvc.
    rewrite Forall_forall in Hbounds. apply Hbounds. assumption. }
  assert (Hrange : forall w y,
             In (w, y) curve ->
             exists p e, In (w, p) (combine ws vs) /\ y = p * e
                         /\ lo <= e /\ e <= hi).
  { intros w y Hin. destruct (Hrows w y Hin) as [p [Hp ->]].
    exists p, (filled x0 y0 rest w (Pd.loc w ec)).
    split; [assumption|]. split; [reflexivity|].
    unfold filled. destruct (Pd.loc w ec) as [e'|] eqn:Eloc.
    - destruct (loc_some_key w ec e' Eloc) as [j [Hj _]].
      rewrite Forall_forall in Hbounds. apply (Hbounds _ Hj).
    - inversion HVb as [|? ? [H0l H0h] Hrest]; subst. simpl in H0l, H0h.
      unfold Np.interp_nonempty.
      destruct (Qlt_bool w x0) eqn:E0; [split; assumption|].
      apply Qlt_bool_false_iff in E0.
      pose proof (Forall_last _ (x0, y0) rest (conj H0l H0h) Hrest) as Hl.
      simpl in Hl. destruct Hl as [Hll Hlh].
      apply interp_from_bounds; assumption. }
  exists curve. split; [exact Hrun|]. split; [exact Hrange|].
  intros Hlo Hhi Hvs w y Hin.
  destruct (Hrange w y Hin) as [p [e [Hp [-> [He0 He1]]]]].
  exists p. split; [assumption|].
  assert (Hp0 : 0 <= p).
  { rewrite Forall_forall in Hvs. apply Hvs.
    apply in_combine_r in Hp. assumption. }
  assert (H1 : 0 <= p * e) by (apply Qmult_le_0_compat; lra).
  assert (H2 : 0 <= p * (1 - e)) by (apply Qmult_le_0_compat; lra).
  split; [assumption|].
  setoid_replace p with (p * e + p * (1 - e)) at 2 by ring. lra.
Qed.

Lemma applied_efficiency_within_bounds_witness :
  exists curve,
    wake_losses_to_power_curve [3; 4; 5; 7] [100; 200; 300; 400]
      "wind_efficiency_curve"
      (DataFrame [(3, 1 # 2); (4, 7 # 10); (7, 1)]) = Ok curve
    /\ forall w y,
        In (w, y) curve ->
        exists p, In (w, p) (combine [3; 4; 5; 7] [100; 200; 300; 400])
                  /\ 0 <= y /\ y <= p.
Proof.
  destruct (applied_efficiency_within_bounds [3; 4; 5; 7]
              [100; 200; 300; 400] [(3, 1 # 2); (4, 7 # 10); (7, 1)] 0 1)
    as [curve [Hrun [_ Hsafe]]].
  - unfold ascending. repeat constructor.
  - reflexivity.
  - unfold ascending. repeat constructor.
  - discriminate.
  - repeat constructor; discriminate.
  - exists curve. split; [exact Hrun|].
    apply Hsafe.
    + discriminate.
    + discriminate.
    + repeat constructor; discriminate.
Defined.

(** ** The wind efficiency curve on the wind speeds of the power curve *)

Lemma map_rows_of_combine (F : Q -> Q) (ws : list Q) :
  forall vs out : list Q,
    Forall2 (fun w e => F w = e) ws out -> length vs = length ws ->
    map (fun r => (fst r, snd r * F (fst r))) (combine ws vs)
    = combine ws (map (fun pe => fst pe * snd pe) (combine vs out)).
Proof.
  induction ws as [|w ws IH]; intros vs out H Hlen.
  - reflexivity.
  - inversion H as [|? e ? out' He Hrest]; subst.
    destruct vs as [|p vs]; [discriminate|].
    simpl. f_equal. apply IH; [assumption|]. simpl in Hlen. lia.
Qed.

(** An efficiency frame on exactly the wind speeds of the power curve:
    nothing is interpolated or dropped, the curve returned has the same
    wind speeds and each power multiplied by the efficiency at its wind
    speed. *)
Theorem efficiency_at_every_wind_speed (ws vs es : list Q) :
  ascending ws -> length vs = length ws -> length es = length ws ->
  ws <> [] ->
  wake_losses_to_power_curve ws vs "wind_efficiency_curve"
    (DataFrame (combine ws es))
  = Ok (combine ws (map (fun pe => fst pe * snd pe) (combine vs es))).
Proof.
  intros Hws Hlen Hes Hne.
  assert (Hkeys : map fst (combine ws es) = ws)
    by (apply map_fst_combine; symmetry; assumption).
  assert (Hec : ascending (map fst (combine ws es)))
    by (rewrite Hkeys; assumption).
  pose proof (aligned_valid_points ws (combine ws es) Hws Hec) as HV.
  remember (Pd.sort_points
              (Pd.valid_points (Pd.union ws (map fst (combine ws es)))
                 (map (fun k => Pd.loc k (combine ws es))
                      (Pd.union ws (map fst (combine ws es))))))
    as V eqn:EV.
  destruct V as [|[x0 y0] rest].
  { inversion HV as [E1 E2|]. destruct ws; [contradiction|].
    destruct es; discriminate. }
  symmetry in EV.
  rewrite (efficiency_curve_rows ws vs (combine ws es) x0 y0 rest Hws Hlen EV).
  f_equal.
  assert (Hfirst : from_first_given (combine ws es) (combine ws vs)
                   = combine ws vs).
  { destruct ws as [|w ws]; [contradiction|].
    destruct vs as [|p vs]; [discriminate|].
    destruct es as [|e es]; [discriminate|].
    simpl. rewrite Qeq_bool_refl. reflexivity. }
  rewrite Hfirst.
  apply (map_rows_of_combine
           (fun w => filled x0 y0 rest w (Pd.loc w (combine ws es))));
    [|assumption].
  apply Forall2_of_nth; [symmetry; assumption|].
  intros i w e Hw He.
  rewrite (loc_combine ws es Hws i w e Hw He). reflexivity.
Qed.

Lemma efficiency_at_every_wind_speed_witness :
  wake_losses_to_power_curve [3; 4; 5] [100; 200; 300]
    "wind_efficiency_curve"
    (DataFrame (combine [3; 4; 5] [1 # 2; 7 # 10; 1]))
  = Ok (combine [3; 4; 5]
          (map (fun pe => fst pe * snd pe)
               (combine [100; 200; 300] [1 # 2; 7 # 10; 1]))).
Proof.
  apply (efficiency_at_every_wind_speed [3; 4; 5] [100; 200; 300]
           [1 # 2; 7 # 10; 1]).
  - unfold ascending. repeat constructor.
  - reflexivity.
  - reflexivity.
  - discriminate.
Defined.
